(** * effil: worker-thread control machine and shutdown coordination

    A shallow embedding of [src/cpp/threading.cpp], [src/cpp/shutdown.h]
    and [src/cpp/shutdown.cpp].

    - C++ enums are inductive types, classes are records, and a method is a
      function from the object to the updated object.
    - [ThreadHandle] objects live in a store indexed by address; the
      thread-local pointer [thisThreadHandle] and [Thread::ctx_] are
      addresses (or null) into that store, so the worker and the
      controlling side see the same object.
    - A C++ exception is a constructor of [Exception]; a function that may
      throw returns a [Completion].
    - What other threads and the clock do while a thread is blocked is an
      explicit schedule (a list of labels) that the blocking loop consumes. *)

From Stdlib Require Import ZArith List String Bool Lia.
From stdpp Require Import base option list gmap strings.
Import ListNotations.
Local Open Scope Z_scope.

(** ** Enumerations of [ThreadHandle] *)

Inductive Status : Type :=
  | Running | Paused | Canceled | Completed | Failed.

Inductive Command : Type :=
  | Run | Cancel | Pause.

#[global] Instance Status_eq_dec : EqDecision Status.
Proof. solve_decision. Defined.

#[global] Instance Command_eq_dec : EqDecision Command.
Proof. solve_decision. Defined.

(** threading.cpp:27 *)
Definition isFinishStatus (stat : Status) : bool :=
  bool_decide (stat = Canceled) || bool_decide (stat = Completed)
  || bool_decide (stat = Failed).

(** threading.cpp:31 *)
Definition statusToString (status : Status) : string :=
  match status with
  | Running => "running"
  | Paused => "paused"
  | Canceled => "canceled"
  | Completed => "completed"
  | Failed => "failed"
  end.

(** ** Notifier *)

Module Notifier.

(** Modelled from the spec: [notifier.h] is not among the sources.  A
    notifier is a latch: [notify] sets it, [reset] clears it, and a wait
    returns at once when it is set. *)
Record t : Type := mk { notified_ : bool }.

Definition create : t := mk false.
Definition notify (n : t) : t := mk true.
Definition reset (n : t) : t := mk false.

Inductive WaitResult : Type :=
  | Woken          (* the latch was set: returns true *)
  | TimedOut       (* a timeout was given and elapsed: returns false *)
  | BlocksForever. (* no timeout and nobody notifies *)

(** Modelled from the spec: [waitFor(timeout)] when no other thread touches
    the notifier during the call. *)
Definition waitFor (timeout : option Z) (n : t) : WaitResult :=
  if notified_ n then Woken
  else match timeout with
       | Some _ => TimedOut
       | None => BlocksForever
       end.

End Notifier.

(** The three notifiers a handle owns, and the calls made on them.  The log
    of calls is not a member of the C++ class: it records, in program order,
    which notifier operations a method performed. *)
Inductive NotifierName : Type :=
  | StatusNotifier | CommandNotifier | CompletionNotifier.

Inductive NotifierCall : Type :=
  | CallReset (n : NotifierName)
  | CallNotify (n : NotifierName).

#[global] Instance NotifierName_eq_dec : EqDecision NotifierName.
Proof. solve_decision. Defined.

#[global] Instance NotifierCall_eq_dec : EqDecision NotifierCall.
Proof. solve_decision. Defined.

(** ** Stored objects *)

(** Modelled from the spec: [stored-object.h] is not among the sources.  A
    scalar is held by value; a composite holds its [gcHandle] and says
    whether it still owns a strong reference. *)
Inductive StoredObject : Type :=
  | SNil
  | SBool (b : bool)
  | SNumber (n : Z)
  | SString (s : string)
  | SComposite (gcHandle : nat) (strong : bool).

Definition StoredArray : Type := list StoredObject.

Definition gcHandle (o : StoredObject) : option nat :=
  match o with
  | SComposite g _ => Some g
  | _ => None
  end.

Definition releaseStrongReference (o : StoredObject) : StoredObject :=
  match o with
  | SComposite g _ => SComposite g false
  | _ => o
  end.

(** An [IInterruptable*] is the address of some notifier. *)
Definition IInterruptable : Type := nat.

(** ** ThreadHandle *)

Record ThreadHandle : Type := mkThreadHandle {
  status_ : Status;
  command_ : Command;
  currNotifier_ : option IInterruptable;
  lua_ : bool;                      (* the sol::state is alive *)
  statusNotifier_ : Notifier.t;
  commandNotifier_ : Notifier.t;
  completionNotifier_ : Notifier.t;
  result_ : StoredArray;
  refs_ : list nat;                 (* gc handles registered by addReference *)
  calls_ : list NotifierCall        (* log, oldest first *)
}.

(** threading.cpp:142 *)
Definition ThreadHandle_new : ThreadHandle :=
  {| status_ := Running;
     command_ := Run;
     currNotifier_ := None;
     lua_ := true;
     statusNotifier_ := Notifier.create;
     commandNotifier_ := Notifier.create;
     completionNotifier_ := Notifier.create;
     result_ := [];
     refs_ := [];
     calls_ := [] |}.

Definition set_status (s : Status) (h : ThreadHandle) : ThreadHandle :=
  mkThreadHandle s (command_ h) (currNotifier_ h) (lua_ h)
    (statusNotifier_ h) (commandNotifier_ h) (completionNotifier_ h)
    (result_ h) (refs_ h) (calls_ h).

Definition set_command (c : Command) (h : ThreadHandle) : ThreadHandle :=
  mkThreadHandle (status_ h) c (currNotifier_ h) (lua_ h)
    (statusNotifier_ h) (commandNotifier_ h) (completionNotifier_ h)
    (result_ h) (refs_ h) (calls_ h).

Definition set_result (r : StoredArray) (h : ThreadHandle) : ThreadHandle :=
  mkThreadHandle (status_ h) (command_ h) (currNotifier_ h) (lua_ h)
    (statusNotifier_ h) (commandNotifier_ h) (completionNotifier_ h)
    r (refs_ h) (calls_ h).

Definition getNotifier (n : NotifierName) (h : ThreadHandle) : Notifier.t :=
  match n with
  | StatusNotifier => statusNotifier_ h
  | CommandNotifier => commandNotifier_ h
  | CompletionNotifier => completionNotifier_ h
  end.

Definition putNotifier (n : NotifierName) (v : Notifier.t) (h : ThreadHandle)
  : ThreadHandle :=
  mkThreadHandle (status_ h) (command_ h) (currNotifier_ h) (lua_ h)
    (match n with StatusNotifier => v | _ => statusNotifier_ h end)
    (match n with CommandNotifier => v | _ => commandNotifier_ h end)
    (match n with CompletionNotifier => v | _ => completionNotifier_ h end)
    (result_ h) (refs_ h) (calls_ h).

Definition logCall (c : NotifierCall) (h : ThreadHandle) : ThreadHandle :=
  mkThreadHandle (status_ h) (command_ h) (currNotifier_ h) (lua_ h)
    (statusNotifier_ h) (commandNotifier_ h) (completionNotifier_ h)
    (result_ h) (refs_ h) (calls_ h ++ [c]).

(** [n.reset()] and [n.notify()] on one of the handle's notifiers. *)
Definition resetN (n : NotifierName) (h : ThreadHandle) : ThreadHandle :=
  logCall (CallReset n) (putNotifier n (Notifier.reset (getNotifier n h)) h).

Definition notifyN (n : NotifierName) (h : ThreadHandle) : ThreadHandle :=
  logCall (CallNotify n) (putNotifier n (Notifier.notify (getNotifier n h)) h).

Definition notified (n : NotifierName) (h : ThreadHandle) : bool :=
  Notifier.notified_ (getNotifier n h).

(** threading.cpp:151.  The mutex makes the body atomic. *)
Definition putCommand (cmd : Command) (h : ThreadHandle) : ThreadHandle :=
  if isFinishStatus (status_ h) then h
  else
    let h := set_command cmd h in
    let h := resetN StatusNotifier h in
    notifyN CommandNotifier h.

(** threading.cpp:161 *)
Definition changeStatus (stat : Status) (h : ThreadHandle) : ThreadHandle :=
  let h := set_status stat h in
  let h := resetN CommandNotifier h in
  let h := notifyN StatusNotifier h in
  if isFinishStatus stat then notifyN CompletionNotifier h else h.

(** The operations as the specification words them, for comparison with the
    two above: each resets the notifier it is about to notify. *)
Definition putCommand_spec (cmd : Command) (h : ThreadHandle) : ThreadHandle :=
  if isFinishStatus (status_ h) then h
  else
    let h := set_command cmd h in
    let h := resetN CommandNotifier h in
    notifyN CommandNotifier h.

Definition changeStatus_spec (stat : Status) (h : ThreadHandle) : ThreadHandle :=
  let h := set_status stat h in
  let h := resetN StatusNotifier h in
  let h := notifyN StatusNotifier h in
  if isFinishStatus stat then notifyN CompletionNotifier h else h.

(** Modelled from the spec: [threading.h], which defines this member of
    [ThreadHandle], is not among the sources.  [setNotifier] registers (or,
    with null, clears) the interruptable of the blocking call the worker is
    in. *)
Definition setNotifier (n : option IInterruptable) (h : ThreadHandle)
  : ThreadHandle :=
  mkThreadHandle (status_ h) (command_ h) n (lua_ h)
    (statusNotifier_ h) (commandNotifier_ h) (completionNotifier_ h)
    (result_ h) (refs_ h) (calls_ h).

(** Modelled from the spec: [destroyLua] (threading.h) destroys the
    worker's private interpreter. *)
Definition destroyLua (h : ThreadHandle) : ThreadHandle :=
  mkThreadHandle (status_ h) (command_ h) (currNotifier_ h) false
    (statusNotifier_ h) (commandNotifier_ h) (completionNotifier_ h)
    (result_ h) (refs_ h) (calls_ h).

(** Modelled from the spec: [addReference] (declared outside the sources)
    registers a reference to a composite against this handle's lifetime. *)
Definition addReference (g : nat) (h : ThreadHandle) : ThreadHandle :=
  mkThreadHandle (status_ h) (command_ h) (currNotifier_ h) (lua_ h)
    (statusNotifier_ h) (commandNotifier_ h) (completionNotifier_ h)
    (result_ h) (refs_ h ++ [g]) (calls_ h).

Definition NO_TIMEOUT : option Z := None.

(** Modelled from the spec: [waitForStatusChange] (threading.h) blocks on
    the status notifier and returns the status observed afterwards; [None]
    is a wait that never returns. *)
Definition waitForStatusChange (timeout : option Z) (h : ThreadHandle)
  : option Status :=
  match Notifier.waitFor timeout (statusNotifier_ h) with
  | Notifier.BlocksForever => None
  | _ => Some (status_ h)
  end.

(** Modelled from the spec: [waitForCommandChange] (threading.h) blocks on
    the command notifier and returns the command observed afterwards. *)
Definition waitForCommandChange (timeout : option Z) (h : ThreadHandle)
  : option Command :=
  match Notifier.waitFor timeout (commandNotifier_ h) with
  | Notifier.BlocksForever => None
  | _ => Some (command_ h)
  end.

(** Modelled from the spec: [waitForCompletion] (threading.h) blocks on the
    completion notifier and tells whether it was notified in time. *)
Definition waitForCompletion (timeout : option Z) (h : ThreadHandle)
  : option bool :=
  match Notifier.waitFor timeout (completionNotifier_ h) with
  | Notifier.Woken => Some true
  | Notifier.TimedOut => Some false
  | Notifier.BlocksForever => None
  end.

(** ** Exceptions and completions *)

(** threading.cpp:25: [class LuaHookStopException {}] has no base class. *)
Inductive Exception : Type :=
  | LuaHookStopException
  | StdRuntimeError (what : string).

Definition derives_std_exception (e : Exception) : bool :=
  match e with
  | LuaHookStopException => false
  | StdRuntimeError _ => true
  end.

Definition what_of (e : Exception) : string :=
  match e with
  | LuaHookStopException => ""
  | StdRuntimeError w => w
  end.

Inductive Completion : Type :=
  | Normal                 (* the call returned *)
  | Throw (e : Exception)  (* the call is unwinding with e *)
  | Blocked                (* the schedule ended with the thread still waiting *)
  | Abort.                 (* a failed assert, or a call through a bad pointer *)

(** What happens around a blocked thread: it is scheduled, another thread
    calls [putCommand] on the handle, or time passes. *)
Inductive Label : Type :=
  | LWorker
  | LPut (c : Command)
  | LElapse (ms : Z).

(** ** The hook, on one handle *)

(** threading.cpp:68-76: the [do ... while] of the pause branch and the
    [if] after it.  [LWorker] is one attempt of the worker to get out of
    [waitForCommandChange(NO_TIMEOUT)]. *)
Fixpoint pauseLoop (sched : list Label) (h : ThreadHandle)
  : Completion * ThreadHandle * list Label :=
  match sched with
  | [] => (Blocked, h, [])
  | LPut c :: sched' => pauseLoop sched' (putCommand c h)
  | LElapse _ :: sched' => pauseLoop sched' h
  | LWorker :: sched' =>
      match waitForCommandChange NO_TIMEOUT h with
      | None => pauseLoop sched' h
      | Some cmd =>
          if negb (bool_decide (cmd = Run)) && negb (bool_decide (cmd = Cancel))
          then pauseLoop sched' h
          else if bool_decide (cmd = Run)
               then (Normal, changeStatus Running h, sched')
               else (Throw LuaHookStopException, changeStatus Canceled h, sched')
      end
  end.

(** threading.cpp:59-79, after the assert. *)
Definition luaHook_handle (sched : list Label) (h : ThreadHandle)
  : Completion * ThreadHandle * list Label :=
  match command_ h with
  | Run => (Normal, h, sched)
  | Cancel => (Throw LuaHookStopException, changeStatus Canceled h, sched)
  | Pause => pauseLoop sched (changeStatus Paused h)
  end.

(** threading.cpp:99-103, inside the null test. *)
Definition interruptionPoint_handle (h : ThreadHandle)
  : Completion * ThreadHandle :=
  if bool_decide (command_ h = Cancel)
  then (Throw LuaHookStopException, changeStatus Canceled h)
  else (Normal, h).

(** ** The store *)

Record World : Type := mkWorld {
  handles : gmap nat ThreadHandle;        (* every live ThreadHandle *)
  notifiers : gmap nat Notifier.t         (* notifiers owned by library calls *)
}.

Definition store_handle (p : nat) (h : ThreadHandle) (w : World) : World :=
  mkWorld (<[p := h]> (handles w)) (notifiers w).

(** threading.cpp:57 *)
Definition luaHook (thisThreadHandle : option nat) (sched : list Label)
  (w : World) : Completion * World * list Label :=
  match thisThreadHandle with
  | None => (Abort, w, sched)
  | Some p =>
      match handles w !! p with
      | None => (Abort, w, sched)
      | Some h =>
          let '(c, h', sched') := luaHook_handle sched h in
          (c, store_handle p h' w, sched')
      end
  end.

(** threading.cpp:86 and 92 *)
Definition ScopedSetInterruptable_ctor (thisThreadHandle : option nat)
  (notifier : IInterruptable) (w : World) : Completion * World :=
  match thisThreadHandle with
  | None => (Normal, w)
  | Some p =>
      match handles w !! p with
      | None => (Abort, w)
      | Some h => (Normal, store_handle p (setNotifier (Some notifier) h) w)
      end
  end.

Definition ScopedSetInterruptable_dtor (thisThreadHandle : option nat)
  (w : World) : Completion * World :=
  match thisThreadHandle with
  | None => (Normal, w)
  | Some p =>
      match handles w !! p with
      | None => (Abort, w)
      | Some h => (Normal, store_handle p (setNotifier None h) w)
      end
  end.

(** threading.cpp:98 *)
Definition interruptionPoint (thisThreadHandle : option nat) (w : World)
  : Completion * World :=
  match thisThreadHandle with
  | None => (Normal, w)
  | Some p =>
      match handles w !! p with
      | None => (Abort, w)
      | Some h =>
          let '(c, h') := interruptionPoint_handle h in
          (c, store_handle p h' w)
      end
  end.

(** threading.cpp:112; [std::this_thread::yield()] changes nothing here. *)
Definition yield (thisThreadHandle : option nat) (sched : list Label)
  (w : World) : Completion * World * list Label :=
  luaHook thisThreadHandle sched w.

Definition on_handle (p : nat) (f : ThreadHandle → ThreadHandle) (w : World)
  : World :=
  mkWorld (alter f p (handles w)) (notifiers w).

(** Modelled from the spec: [ThreadHandle::interrupt] wakes the notifier
    registered in [currNotifier_], if there is one. *)
Definition interrupt (p : nat) (w : World) : World :=
  match handles w !! p with
  | Some h =>
      match currNotifier_ h with
      | Some n => mkWorld (handles w) (alter Notifier.notify n (notifiers w))
      | None => w
      end
  | None => w
  end.

(** ** The interpreter, as far as the worker sees it *)

Inductive LuaObject : Type :=
  | LNil
  | LBool (b : bool)
  | LNumber (n : Z)
  | LString (s : string)
  | LComposite (repr : nat).

(** Modelled from the spec: [createStoredObject] copies a scalar and wraps a
    composite in a handle that owns one strong reference. *)
Definition createStoredObject (v : LuaObject) : StoredObject :=
  match v with
  | LNil => SNil
  | LBool b => SBool b
  | LNumber n => SNumber n
  | LString s => SString s
  | LComposite r => SComposite r true
  end.

#[local] Set Warnings "-register-all".

(** What the user function does, seen from this file: the places where it
    reaches the hook or the library, and what other threads do in between.
    [AScoped n inner] is a blocking library call that holds a
    [ScopedSetInterruptable] on [n] while [inner] happens. *)
Inductive Action : Type :=
  | AHook                         (* the count hook set by lua_sethook fires *)
  | AYield                        (* effil.yield() *)
  | AInterruptionPoint            (* this_thread::interruptionPoint() *)
  | AScoped (n : IInterruptable) (inner : list Action)
  | AMeanwhile (c : Command).     (* another thread calls putCommand(c) *)

#[local] Set Warnings "register-all".

Inductive Finish : Type :=
  | Return (vals : list LuaObject)
  | Error (what traceback : string).

Record Behaviour : Type := mkBehaviour {
  body : list Action;
  finish : Finish
}.

Definition Function : Type := StoredArray → Behaviour.

(** Build-time facts about the interpreter: its version, and whether a
    protected call turns a foreign C++ exception into an error result
    (threading.cpp:196 expects that it may). *)
Record Interpreter : Type := mkInterpreter {
  LUA_VERSION_NUM : Z;
  catches_foreign : bool;
  foreign_what : string
}.

Definition handler_installed (cfg : Interpreter) : bool :=
  501 <? LUA_VERSION_NUM cfg.

Inductive CallResult : Type :=
  | Valid (returns : list LuaObject)   (* result.valid() *)
  | Invalid (what : string)            (* !result.valid(), with err.what() *)
  | Escaped (c : Completion).          (* the call did not return a result *)

Definition emplace_back (o : StoredObject) (h : ThreadHandle) : ThreadHandle :=
  set_result (result_ h ++ [o]) h.

(** threading.cpp:48.  The handler dereferences [thisThreadHandle] without
    a check; [None] in the result: the pointer was null or dangling. *)
Definition luaErrorHandler (thisThreadHandle : option nat)
  (stacktrace : string) (w : World) : option World :=
  p ← thisThreadHandle;
  h ← handles w !! p;
  Some (store_handle p
          (emplace_back (createStoredObject (LString stacktrace)) h) w).

(** Runs [acts] in order with [step] until one of them does not complete
    normally. *)
Definition run_actions
  (step : Action → list Label → World → Completion * World * list Label)
  : list Action → list Label → World → Completion * World * list Label :=
  fix go acts sched w :=
    match acts with
    | [] => (Normal, w, sched)
    | a :: acts' =>
        let '(c, w', sched') := step a sched w in
        match c with
        | Normal => go acts' sched' w'
        | _ => (c, w', sched')
        end
    end.

(** One action of the worker whose handle is at [p].  The destructor of a
    scoped object runs when its scope is left, normally or by an exception;
    it does not run while the thread is stuck inside the scope. *)
Fixpoint perform (p : nat) (a : Action) (sched : list Label) (w : World)
  {struct a} : Completion * World * list Label :=
  match a with
  | AHook => luaHook (Some p) sched w
  | AYield => yield (Some p) sched w
  | AInterruptionPoint =>
      let '(c, w') := interruptionPoint (Some p) w in (c, w', sched)
  | AScoped n inner =>
      let '(c, w1) := ScopedSetInterruptable_ctor (Some p) n w in
      match c with
      | Normal =>
          let '(c, w2, sched2) := run_actions (perform p) inner sched w1 in
          match c with
          | Blocked | Abort => (c, w2, sched2)
          | _ =>
              let '(d, w3) := ScopedSetInterruptable_dtor (Some p) w2 in
              (match d with Normal => c | _ => d end, w3, sched2)
          end
      | _ => (c, w1, sched)
      end
  | AMeanwhile c => (Normal, on_handle p (putCommand c) w, sched)
  end.

(** The user function's actions, up to its end or to the first one that
    does not complete normally. *)
Definition run_body (p : nat) : list Action → list Label → World →
  Completion * World * list Label :=
  run_actions (perform p).

(** threading.cpp:194: [userFuncObj(std::move(arguments))] on the worker
    whose handle is at [p]. *)
Definition call_function (cfg : Interpreter) (p : nat) (acts : list Action)
  (fin : Finish) (sched : list Label) (w : World)
  : CallResult * World * list Label :=
  let '(c, w', sched') := run_body p acts sched w in
  match c with
  | Normal =>
      match fin with
      | Return vals => (Valid vals, w', sched')
      | Error what traceback =>
          if handler_installed cfg then
            match luaErrorHandler (Some p) traceback w' with
            | Some w'' => (Invalid what, w'', sched')
            | None => (Escaped Abort, w', sched')
            end
          else (Invalid what, w', sched')
      end
  | Throw e =>
      if catches_foreign cfg then (Invalid (foreign_what cfg), w', sched')
      else (Escaped (Throw e), w', sched')
  | _ => (Escaped c, w', sched')
  end.

(** threading.cpp:205-213, one iteration. *)
Definition store_return (h : ThreadHandle) (v : LuaObject) : ThreadHandle :=
  let store := createStoredObject v in
  match gcHandle store with
  | Some g => emplace_back (releaseStrongReference store) (addReference g h)
  | None => emplace_back store h
  end.

(** How control leaves the inner block of [runThread]. *)
Inductive BlockExit : Type :=
  | FallThrough
  | EarlyReturn
  | Raised (e : Exception)
  | NoExit (c : Completion).

(** threading.cpp:195-213 *)
Definition after_call (r : CallResult) (h : ThreadHandle)
  : BlockExit * ThreadHandle :=
  match r with
  | Invalid what =>
      if bool_decide (status_ h = Canceled) then (EarlyReturn, h)
      else (Raised (StdRuntimeError what), h)
  | Valid vals => (FallThrough, fold_left store_return vals h)
  | Escaped (Throw e) => (Raised e, h)
  | Escaped c => (NoExit c, h)
  end.

(** threading.cpp:215-225, entered after the scope guard has run. *)
Definition after_block (x : BlockExit) (h : ThreadHandle)
  : Completion * ThreadHandle :=
  match x with
  | FallThrough => (Normal, changeStatus Completed h)
  | EarlyReturn => (Normal, h)
  | Raised LuaHookStopException => (Normal, changeStatus Canceled h)
  | Raised e =>
      if derives_std_exception e then
        let returns := [createStoredObject (LString "failed");
                        createStoredObject (LString (what_of e))] ++ result_ h in
        (Normal, changeStatus Failed (set_result returns h))
      else (Throw e, h)
  | NoExit c => (c, h)
  end.

Definition runThread_handle (r : CallResult) (h : ThreadHandle)
  : Completion * ThreadHandle :=
  let '(x, h) := after_call r h in
  match x with
  | NoExit c => (c, h)
  | _ => after_block x (destroyLua h)
  end.

Module Thread.

Record t : Type := mk { ctx_ : nat }.

(** threading.cpp:170 *)
Definition runThread (cfg : Interpreter) (thread : t) (function : Function)
  (arguments : StoredArray) (sched : list Label) (w : World)
  : Completion * World * list Label :=
  let thisThreadHandle := ctx_ thread in
  match handles w !! thisThreadHandle with
  | None => (Abort, w, sched)
  | Some _ =>
      let b := function arguments in
      let '(r, w, sched) :=
        call_function cfg thisThreadHandle (body b) (finish b) sched w in
      match handles w !! thisThreadHandle with
      | None => (Abort, w, sched)
      | Some h =>
          let '(c, h) := runThread_handle r h in
          (c, store_handle thisThreadHandle h w, sched)
      end
  end.

(** threading.cpp:282.  [None]: the assertion at line 285 failed. *)
Definition status_handle (h : ThreadHandle) : option StoredArray :=
  let stat := status_ h in
  if bool_decide (stat = Failed) then
    match result_ h with
    | [] => None
    | _ :: _ => Some (result_ h)
    end
  else Some [createStoredObject (LString (statusToString stat))].

(** [None] in the result: no array is returned (the handle is not in the
    store, or the assertion failed). *)
Definition status (thread : t) (w : World) : option StoredArray :=
  h ← handles w !! ctx_ thread;
  status_handle h.

Section Timed.

(** [fromLuaTime] is declared in [utils.h], which is not among the
    sources: it turns a duration and a unit name into milliseconds. *)
Variable fromLuaTime : Z → option string → Z.

(** threading.cpp:293 *)
Definition toOptionalTime (duration : option Z) (period : option string)
  : option Z :=
  match duration with
  | Some d => Some (fromLuaTime d period)
  | None => None
  end.

(** threading.cpp:301.  [None] in the result: the call never returns. *)
Definition wait (thread : t) (duration : option Z) (period : option string)
  (w : World) : option StoredArray :=
  h ← handles w !! ctx_ thread;
  _ ← waitForCompletion (toOptionalTime duration period) h;
  status_handle h.

(** threading.cpp:308 *)
Definition get (thread : t) (duration : option Z) (period : option string)
  (w : World) : option StoredArray :=
  h ← handles w !! ctx_ thread;
  done ← waitForCompletion (toOptionalTime duration period) h;
  Some (if done && bool_decide (status_ h = Completed) then result_ h
        else []).

(** threading.cpp:316 *)
Definition cancel (thread : t) (duration : option Z)
  (period : option string) (w : World) : option bool * World :=
  let w := on_handle (ctx_ thread) (putCommand Cancel) w in
  let w := interrupt (ctx_ thread) w in
  (h ← handles w !! ctx_ thread;
   status ← waitForStatusChange (toOptionalTime duration period) h;
   Some (isFinishStatus status),
   w).

(** threading.cpp:325 *)
Definition pause (thread : t) (duration : option Z)
  (period : option string) (w : World) : option bool * World :=
  let w := on_handle (ctx_ thread) (putCommand Pause) w in
  (h ← handles w !! ctx_ thread;
   status ← waitForStatusChange (toOptionalTime duration period) h;
   Some (bool_decide (status = Paused)),
   w).

End Timed.

(** threading.cpp:333 *)
Definition resume (thread : t) (w : World) : World :=
  on_handle (ctx_ thread) (putCommand Run) w.

End Thread.

(** ** The Lua C API calls that [register_cookie] makes *)

Module Lua.

Inductive Value : Type :=
  | VNil
  | VString (s : string)
  | VCFunction (name : string)
  | VTable (a : nat)
  | VUserdata (a : nat).

Inductive Object : Type :=
  | OTable (fields : gmap string Value) (metatable : option nat)
  | OUserdata (size : Z) (metatable : option nat).

(** A [lua_State]: the stack (top first), the collectable objects by
    address, and the registry table. *)
Record State : Type := mkState {
  stack : list Value;
  objects : gmap nat Object;
  registry : gmap string Value
}.

(** lua.h of Lua 5.1 and LuaJIT. *)
Definition LUA_REGISTRYINDEX : Z := -10000.

Definition push (v : Value) (L : State) : State :=
  mkState (v :: stack L) (objects L) (registry L).

(** The value at a negative (top-relative) index. *)
Definition index2value (L : State) (idx : Z) : option Value :=
  if (idx <? 0) && (LUA_REGISTRYINDEX <? idx)
  then stack L !! Z.to_nat (- idx - 1)
  else None.

Definition lua_newuserdata (L : State) (sz : Z) : option State :=
  let a := fresh (dom (objects L)) in
  Some (mkState (VUserdata a :: stack L)
          (<[a := OUserdata sz None]> (objects L)) (registry L)).

Definition lua_createtable (L : State) (narr nrec : Z) : option State :=
  let a := fresh (dom (objects L)) in
  Some (mkState (VTable a :: stack L)
          (<[a := OTable ∅ None]> (objects L)) (registry L)).

Definition lua_pushvalue (L : State) (idx : Z) : option State :=
  v ← index2value L idx;
  Some (push v L).

Definition lua_pushcfunction (L : State) (f : string) : option State :=
  Some (push (VCFunction f) L).

(** [t[k] = v] for the table [t] at [idx] and the value [v] on top, which
    is popped. *)
Definition lua_setfield (L : State) (idx : Z) (k : string) : option State :=
  match stack L with
  | [] => None
  | v :: rest =>
      if bool_decide (idx = LUA_REGISTRYINDEX)
      then Some (mkState rest (objects L) (<[k := v]> (registry L)))
      else
        t ← index2value L idx;
        match t with
        | VTable a =>
            match objects L !! a with
            | Some (OTable fields mt) =>
                Some (mkState rest
                        (<[a := OTable (<[k := v]> fields) mt]> (objects L))
                        (registry L))
            | _ => None
            end
        | _ => None
        end
  end.

(** Pops a table and makes it the metatable of the object at [idx]. *)
Definition lua_setmetatable (L : State) (idx : Z) : option State :=
  match stack L with
  | VTable m :: rest =>
      o ← index2value L idx;
      match o with
      | VUserdata a =>
          match objects L !! a with
          | Some (OUserdata sz _) =>
              Some (mkState rest (<[a := OUserdata sz (Some m)]> (objects L))
                      (registry L))
          | _ => None
          end
      | VTable a =>
          match objects L !! a with
          | Some (OTable fields _) =>
              Some (mkState rest (<[a := OTable fields (Some m)]> (objects L))
                      (registry L))
          | _ => None
          end
      | _ => None
      end
  | _ => None
  end.

End Lua.

(** ** Shutdown *)

Module Shutdown.

(** [size_t] is taken to be 64 bits wide. *)
Definition SIZE_MAX : Z := 2 ^ 64 - 1.

(** shutdown.cpp:17-18 *)
Record Globals : Type := mkGlobals {
  SHUTDOWN : bool;
  ACTIVE_THREAD_COUNT : Z
}.

Definition initial : Globals := mkGlobals false 0.

(** shutdown.h:48 *)
Definition requested (g : Globals) : bool := SHUTDOWN g.

(** shutdown.h:52 *)
Definition activeThreads (g : Globals) : Z := ACTIVE_THREAD_COUNT g.

(** shutdown.h:56; [fetch_add] on a [size_t] wraps. *)
Definition threadStart (g : Globals) : Globals :=
  mkGlobals (SHUTDOWN g) ((ACTIVE_THREAD_COUNT g + 1) mod (SIZE_MAX + 1)).

(** shutdown.h:60 *)
Definition threadFinish (g : Globals) : Globals :=
  mkGlobals (SHUTDOWN g) ((ACTIVE_THREAD_COUNT g - 1) mod (SIZE_MAX + 1)).

(** [sizeof(Shutdown)]: a class without data members. *)
Definition sizeof_Shutdown : Z := 1.

(** [std::atomic<bool>::exchange]: the old value and the new cell. *)
Definition exchange (cell desired : bool) : bool * bool := (cell, desired).

(** shutdown.h:26.  [registered] is the function's static flag; the result
    is the flag afterwards and the Lua state ([None]: the C API was
    misused). *)
Definition register_cookie (registered : bool) (L : Lua.State)
  : bool * option Lua.State :=
  let '(old, registered) := exchange registered true in
  if old then (registered, Some L)
  else
    (registered,
     L ← Lua.lua_newuserdata L sizeof_Shutdown;
     L ← Lua.lua_createtable L 0 2;
     L ← Lua.lua_pushvalue L (-1);
     L ← Lua.lua_setfield L (-2) "__index";
     L ← Lua.lua_pushcfunction L "Shutdown::gc";
     L ← Lua.lua_setfield L (-2) "__gc";
     L ← Lua.lua_setmetatable L (-2);
     Lua.lua_setfield L Lua.LUA_REGISTRYINDEX "effil_shutdown_cookie").

(** Calls of [register_cookie] one after the other, each with the Lua
    state of its caller; the states come back in the same order. *)
Fixpoint register_cookies (registered : bool) (Ls : list Lua.State)
  : bool * list (option Lua.State) :=
  match Ls with
  | [] => (registered, [])
  | L :: Ls' =>
      let '(registered, L') := register_cookie registered L in
      let '(registered, rest) := register_cookies registered Ls' in
      (registered, L' :: rest)
  end.

(** Workers, as the shutdown thread sees them. *)
Inductive WorkerEvent : Type :=
  | HookLoopBegin (worker : nat)
  | HookLoopEnd (worker : nat).

(** The globals, and (not a program variable) the workers that are inside
    their hook loop. *)
Record Process : Type := mkProcess {
  globals : Globals;
  inLoop : gset nat
}.

(** Modelled from the spec: the callers of [threadStart] and
    [threadFinish] are not among the sources.  A worker calls
    [threadStart] when its hook loop begins and [threadFinish] when it
    ends. *)
Definition worker_event (e : WorkerEvent) (s : Process) : Process :=
  match e with
  | HookLoopBegin wk =>
      mkProcess (threadStart (globals s)) ({[wk]} ∪ inLoop s)
  | HookLoopEnd wk =>
      mkProcess (threadFinish (globals s)) (inLoop s ∖ {[wk]})
  end.

Definition worker_events (es : list WorkerEvent) (s : Process) : Process :=
  fold_left (fun s e => worker_event e s) es s.

(** What the thread running [effil_shutdown] itself does. *)
Inductive Op : Type :=
  | OpStoreFlag
  | OpLoadCount (n : Z)
  | OpSleep (ms : Z).

(** shutdown.cpp:10-12.  The head of [sched] is what the workers do before
    the next load of the counter; when [sched] runs out the loop is still
    polling. *)
Fixpoint poll (sched : list (list WorkerEvent)) (s : Process)
  : option (Process * list Op) :=
  match sched with
  | [] => None
  | es :: sched' =>
      let s := worker_events es s in
      let n := activeThreads (globals s) in
      if 0 <? n then
        '(s', ops) ← poll sched' s;
        Some (s', OpLoadCount n :: OpSleep 10 :: ops)
      else Some (s, [OpLoadCount n])
  end.

(** shutdown.cpp:7 *)
Definition effil_shutdown (sched : list (list WorkerEvent)) (s : Process)
  : option (Process * list Op) :=
  let s := mkProcess (mkGlobals true (ACTIVE_THREAD_COUNT (globals s)))
             (inLoop s) in
  '(s', ops) ← poll sched s;
  Some (s', OpStoreFlag :: ops).

(** shutdown.h:21 *)
Definition gc (sched : list (list WorkerEvent)) (s : Process)
  : option (Process * Z) :=
  '(s', _) ← effil_shutdown sched s;
  Some (s', 0).

Definition worker_of (e : WorkerEvent) : nat :=
  match e with
  | HookLoopBegin wk | HookLoopEnd wk => wk
  end.

(** Every worker named in the schedule has a number below [N]. *)
Definition workers_below (N : nat) (sched : list (list WorkerEvent)) : bool :=
  forallb (forallb (fun e => Nat.ltb (worker_of e) N)) sched.

(** The events come in pairs: with the workers [inside] in their hook
    loop, a loop that begins is one of a worker outside, and a loop that
    ends is one of a worker inside. *)
Fixpoint bracketed (es : list WorkerEvent) (inside : gset nat) : bool :=
  match es with
  | [] => true
  | HookLoopBegin wk :: es' =>
      bool_decide (wk ∉ inside) && bracketed es' ({[wk]} ∪ inside)
  | HookLoopEnd wk :: es' =>
      bool_decide (wk ∈ inside) && bracketed es' (inside ∖ {[wk]})
  end.

(** The counter is the number of workers inside their hook loop, and
    these workers have numbers below [N]. *)
Definition consistent (N : nat) (s : Process) : Prop :=
  ACTIVE_THREAD_COUNT (globals s) = Z.of_nat (size (inLoop s))
  ∧ inLoop s ⊆ set_seq 0 N.

(** The operations of a poll loop that loaded the counts [ns], all
    positive, and then zero. *)
Definition polled (ns : list Z) : list Op :=
  flat_map (fun n => [OpLoadCount n; OpSleep 10]) ns ++ [OpLoadCount 0].

End Shutdown.

(** A handle whose status is terminal has its status notifier latched. *)
Definition latched_when_finished (h : ThreadHandle) : Prop :=
  isFinishStatus (status_ h) = true → notified StatusNotifier h = true.

(** What one step of the worker, completing with [c], may have done to its
    own handle. *)
Definition step_ok (h : ThreadHandle) (c : Completion) (h' : ThreadHandle)
  : Prop :=
  result_ h' = result_ h
  ∧ (∀ e, c = Throw e → e = LuaHookStopException ∧ status_ h' = Canceled)
  ∧ (c = Normal → status_ h' = status_ h ∨ status_ h' = Running)
  ∧ (c ≠ Blocked → currNotifier_ h = None → currNotifier_ h' = None)
  ∧ c ≠ Abort
  ∧ (latched_when_finished h → latched_when_finished h').

(** A step of the worker at [p] keeps its handle in the store and changes
    it within [step_ok]. *)
Definition keeps_handle (p : nat)
  (run : list Label → World → Completion * World * list Label) : Prop :=
  ∀ sched w h, handles w !! p = Some h →
    ∃ h', handles (run sched w).1.2 !! p = Some h'
          ∧ step_ok h (run sched w).1.1 h'.

(** A label by which another thread asks the worker to run or to stop. *)
Definition resumes_or_cancels (l : Label) : bool :=
  match l with
  | LPut Run | LPut Cancel => true
  | _ => false
  end.

(** ** Concrete handles, worlds and functions used in the examples below *)

(** A worker that has been told to pause and has not reached a hook yet. *)
Definition pause_requested : ThreadHandle := putCommand Pause ThreadHandle_new.

(** A worker that resumed: the status notifier is latched. *)
Definition resumed : ThreadHandle := changeStatus Running ThreadHandle_new.

Definition world_of (h : ThreadHandle) : World :=
  mkWorld {[ 0%nat := h ]} ∅.

Definition worker0 : Thread.t := Thread.mk 0.

Definition lua51 : Interpreter := mkInterpreter 501 true "C++ exception".
Definition lua53 : Interpreter := mkInterpreter 503 false "".

Definition boom_traceback : string := "stack traceback: [C]: in function 'error'".

(** [function() error("boom", 0) end] *)
Definition raises_boom : Function :=
  fun _ => mkBehaviour [] (Error "boom" boom_traceback).

(** A function that reaches a hook tick and then returns [42]. *)
Definition ticks_then_42 : Function :=
  fun _ => mkBehaviour [AHook] (Return [LNumber 42]).

(** A function that is inside a blocking library call, with an interruption
    point on entry, when it is cancelled. *)
Definition cancelled_in_call : Function :=
  fun _ => mkBehaviour
             [AHook; AMeanwhile Cancel; AScoped 7%nat [AInterruptionPoint]]
             (Return [LString "never"]).

(** One worker, number 1, is inside its hook loop; it leaves the loop
    during the first sleep of the shutdown thread. *)
Definition one_worker : Shutdown.Process :=
  Shutdown.mkProcess (Shutdown.mkGlobals false 1) {[ 1%nat ]}.

Definition leaves_during_sleep : list (list Shutdown.WorkerEvent) :=
  [[]; [Shutdown.HookLoopEnd 1]; []].

Definition millis : Z → option string → Z := fun d _ => d.

(** One worker, and one notifier of a library call, number 7, that nobody
    has notified. *)
Definition world_with_notifier (h : ThreadHandle) : World :=
  mkWorld {[ 0%nat := h ]} {[ 7%nat := Notifier.create ]}.

(** The worker was cancelled while running (the caller did not wait) and
    reached the interruption point of a blocking call on notifier 7
    afterwards: it is unwinding, with that notifier still registered. *)
Definition unwinding : World :=
  (interruptionPoint (Some 0%nat)
     (ScopedSetInterruptable_ctor (Some 0%nat) 7%nat
        (Thread.cancel millis worker0 (Some 0) None
           (world_with_notifier ThreadHandle_new)).2).2).2.

Definition unwinding_handle : ThreadHandle :=
  changeStatus Canceled
    (setNotifier (Some 7%nat) (putCommand Cancel ThreadHandle_new)).

(** ** Further notions used by the properties *)

(** threading.cpp:194-202 on the worker's own handle: what the protected
    call hands back, given how the function's actions completed. *)
Definition call_result (cfg : Interpreter) (fin : Finish) (c : Completion)
  (h : ThreadHandle) : CallResult * ThreadHandle :=
  match c with
  | Normal =>
      match fin with
      | Return vals => (Valid vals, h)
      | Error what traceback =>
          (Invalid what,
           if handler_installed cfg
           then emplace_back (createStoredObject (LString traceback)) h
           else h)
      end
  | Throw e =>
      if catches_foreign cfg then (Invalid (foreign_what cfg), h)
      else (Escaped (Throw e), h)
  | _ => (Escaped c, h)
  end.


(** An action during which the worker reaches neither the hook nor an
    interruption point. *)
Fixpoint hook_free (a : Action) : bool :=
  match a with
  | AMeanwhile _ => true
  | AScoped _ inner => forallb hook_free inner
  | AHook | AYield | AInterruptionPoint => false
  end.


(** A label other than the worker being scheduled. *)
Definition not_worker (l : Label) : bool :=
  match l with
  | LWorker => false
  | _ => true
  end.

(** What the worker's status is, given how its user function stands, when
    the worker started out [Running]. *)
Definition status_matches (c : Completion) (h' : ThreadHandle) : Prop :=
  match c with
  | Normal => status_ h' = Running
  | Throw e => e = LuaHookStopException ∧ status_ h' = Canceled
  | Blocked => status_ h' = Paused
  | Abort => False
  end.

(** The user function does not touch these members of its handle. *)
Definition body_frame (h h' : ThreadHandle) : Prop :=
  result_ h' = result_ h ∧ refs_ h' = refs_ h ∧ lua_ h' = lua_ h.

(** A finished handle has its completion notifier latched. *)
Definition completed_when_finished (h : ThreadHandle) : Prop :=
  isFinishStatus (status_ h) = true → notified CompletionNotifier h = true.

(** A return value as [runThread] stores it. *)
Definition stored_result (v : LuaObject) : StoredObject :=
  releaseStrongReference (createStoredObject v).

(** The process once [effil_shutdown] has stored the flag. *)
Definition flag_stored (s : Shutdown.Process) : Shutdown.Process :=
  Shutdown.mkProcess
    (Shutdown.mkGlobals true (Shutdown.ACTIVE_THREAD_COUNT (Shutdown.globals s)))
    (Shutdown.inLoop s).

(** The count the shutdown thread loads at its poll number [k] (from 0). *)
Definition count_at (sched : list (list Shutdown.WorkerEvent))
  (s : Shutdown.Process) (k : nat) : Z :=
  Shutdown.activeThreads
    (Shutdown.globals
       (Shutdown.worker_events (concat (take (S k) sched)) (flag_stored s))).

(** * Properties *)

(** ** Terminal statuses *)

Lemma isFinishStatus_spec (stat : Status) :
  isFinishStatus stat = true ↔ stat = Canceled ∨ stat = Completed ∨ stat = Failed.
Proof. destruct stat; compute; intuition congruence. Qed.

Lemma isFinishStatus_nonterminal (stat : Status) :
  isFinishStatus stat = false ↔ stat = Running ∨ stat = Paused.
Proof. destruct stat; compute; intuition congruence. Qed.

(** ** Field by field: what [putCommand] and [changeStatus] leave behind *)

Lemma putCommand_terminal (cmd : Command) (h : ThreadHandle) :
  isFinishStatus (status_ h) = true → putCommand cmd h = h.
Proof. unfold putCommand. intros ->. reflexivity. Qed.

Lemma putCommand_status (cmd : Command) (h : ThreadHandle) :
  status_ (putCommand cmd h) = status_ h.
Proof. unfold putCommand. destruct (isFinishStatus (status_ h)); reflexivity. Qed.

Lemma putCommand_result (cmd : Command) (h : ThreadHandle) :
  result_ (putCommand cmd h) = result_ h.
Proof. unfold putCommand. destruct (isFinishStatus (status_ h)); reflexivity. Qed.

Lemma putCommand_currNotifier (cmd : Command) (h : ThreadHandle) :
  currNotifier_ (putCommand cmd h) = currNotifier_ h.
Proof. unfold putCommand. destruct (isFinishStatus (status_ h)); reflexivity. Qed.

Lemma changeStatus_status (stat : Status) (h : ThreadHandle) :
  status_ (changeStatus stat h) = stat.
Proof. unfold changeStatus. destruct (isFinishStatus stat); reflexivity. Qed.

Lemma changeStatus_command (stat : Status) (h : ThreadHandle) :
  command_ (changeStatus stat h) = command_ h.
Proof. unfold changeStatus. destruct (isFinishStatus stat); reflexivity. Qed.

Lemma changeStatus_result (stat : Status) (h : ThreadHandle) :
  result_ (changeStatus stat h) = result_ h.
Proof. unfold changeStatus. destruct (isFinishStatus stat); reflexivity. Qed.

Lemma changeStatus_currNotifier (stat : Status) (h : ThreadHandle) :
  currNotifier_ (changeStatus stat h) = currNotifier_ h.
Proof. unfold changeStatus. destruct (isFinishStatus stat); reflexivity. Qed.

Lemma changeStatus_latches (stat : Status) (h : ThreadHandle) :
  notified StatusNotifier (changeStatus stat h) = true
  ∧ notified CommandNotifier (changeStatus stat h) = false.
Proof. unfold changeStatus. destruct (isFinishStatus stat); split; reflexivity. Qed.

(** ** C1 *)

(** C1, as the claim words it, fails: on a worker that is not finished,
    [putCommand] resets the status notifier, not the command notifier.  On
    the resumed worker the calls it adds are reset(status), notify(command),
    and the status notifier, latched before, is clear afterwards, which the
    claimed sequence would have left latched. *)
Lemma putCommand_claimed_reset_fails :
  isFinishStatus (status_ resumed) = false
  ∧ calls_ (putCommand Cancel resumed)
    = calls_ resumed ++ [CallReset StatusNotifier; CallNotify CommandNotifier]
  ∧ calls_ (putCommand Cancel resumed)
    ≠ calls_ resumed ++ [CallReset CommandNotifier; CallNotify CommandNotifier]
  ∧ notified StatusNotifier resumed = true
  ∧ notified StatusNotifier (putCommand Cancel resumed) = false
  ∧ notified StatusNotifier (putCommand_spec Cancel resumed) = true
  ∧ putCommand Cancel resumed ≠ putCommand_spec Cancel resumed.
Proof.
  repeat split; try reflexivity.
  - cbn. intros H. discriminate H.
  - intros H. apply (f_equal (notified StatusNotifier)) in H.
    cbn in H. discriminate H.
Qed.

(** C1, amended: for every command, [putCommand] leaves a finished handle
    as it is; on any other handle it stores the command, resets the status
    notifier and then notifies the command notifier, and changes neither
    the status nor any other member. *)
Theorem putCommand_effect (cmd : Command) (h : ThreadHandle) :
  if isFinishStatus (status_ h)
  then putCommand cmd h = h
  else command_ (putCommand cmd h) = cmd
       ∧ status_ (putCommand cmd h) = status_ h
       ∧ calls_ (putCommand cmd h)
         = calls_ h ++ [CallReset StatusNotifier; CallNotify CommandNotifier]
       ∧ notified StatusNotifier (putCommand cmd h) = false
       ∧ notified CommandNotifier (putCommand cmd h) = true
       ∧ completionNotifier_ (putCommand cmd h) = completionNotifier_ h
       ∧ currNotifier_ (putCommand cmd h) = currNotifier_ h
       ∧ lua_ (putCommand cmd h) = lua_ h
       ∧ result_ (putCommand cmd h) = result_ h
       ∧ refs_ (putCommand cmd h) = refs_ h.
Proof.
  unfold putCommand.
  destruct (isFinishStatus (status_ h)) eqn:E; [reflexivity |].
  cbn. rewrite <- app_assoc. repeat split; reflexivity.
Qed.

(** ** C2 *)

(** C2, as the claim words it, fails: [changeStatus] resets the command
    notifier, not the status notifier.  On the worker that was told to
    pause, the command notifier, latched before, is clear afterwards. *)
Lemma changeStatus_claimed_reset_fails :
  calls_ (changeStatus Paused pause_requested)
  = calls_ pause_requested ++ [CallReset CommandNotifier; CallNotify StatusNotifier]
  ∧ calls_ (changeStatus Paused pause_requested)
    ≠ calls_ pause_requested ++ [CallReset StatusNotifier; CallNotify StatusNotifier]
  ∧ notified CommandNotifier pause_requested = true
  ∧ notified CommandNotifier (changeStatus Paused pause_requested) = false
  ∧ notified CommandNotifier (changeStatus_spec Paused pause_requested) = true
  ∧ changeStatus Paused pause_requested ≠ changeStatus_spec Paused pause_requested.
Proof.
  repeat split; try reflexivity.
  - cbn. intros H. discriminate H.
  - intros H. apply (f_equal (notified CommandNotifier)) in H.
    cbn in H. discriminate H.
Qed.

(** C2, amended: for every status, [changeStatus] stores the status, resets
    the command notifier, notifies the status notifier and, exactly when the
    status is terminal, also notifies the completion notifier; the command
    and the other members stay as they were. *)
Theorem changeStatus_effect (stat : Status) (h : ThreadHandle) :
  status_ (changeStatus stat h) = stat
  ∧ calls_ (changeStatus stat h)
    = calls_ h ++ [CallReset CommandNotifier; CallNotify StatusNotifier]
      ++ (if isFinishStatus stat then [CallNotify CompletionNotifier] else [])
  ∧ (CallNotify CompletionNotifier ∈ drop (length (calls_ h)) (calls_ (changeStatus stat h))
     ↔ stat = Canceled ∨ stat = Completed ∨ stat = Failed)
  ∧ notified CommandNotifier (changeStatus stat h) = false
  ∧ notified StatusNotifier (changeStatus stat h) = true
  ∧ notified CompletionNotifier (changeStatus stat h)
    = isFinishStatus stat || notified CompletionNotifier h
  ∧ command_ (changeStatus stat h) = command_ h
  ∧ currNotifier_ (changeStatus stat h) = currNotifier_ h
  ∧ lua_ (changeStatus stat h) = lua_ h
  ∧ result_ (changeStatus stat h) = result_ h
  ∧ refs_ (changeStatus stat h) = refs_ h.
Proof.
  assert (Hcalls : calls_ (changeStatus stat h)
    = calls_ h ++ [CallReset CommandNotifier; CallNotify StatusNotifier]
      ++ (if isFinishStatus stat then [CallNotify CompletionNotifier] else [])).
  { unfold changeStatus. destruct (isFinishStatus stat); cbn;
      repeat rewrite <- app_assoc; reflexivity. }
  split; [apply changeStatus_status |].
  split; [exact Hcalls |].
  split.
  { rewrite Hcalls, drop_app_length, <- isFinishStatus_spec.
    destruct (isFinishStatus stat); cbn; split; intros H;
      try reflexivity; try discriminate H.
    - set_solver.
    - repeat (apply elem_of_cons in H as [H | H]; [discriminate H |]).
      by apply elem_of_nil in H. }
  unfold changeStatus.
  destruct (isFinishStatus stat); cbn; repeat split; reflexivity.
Qed.

(** ** The store *)

Lemma store_handle_same (p : nat) (h : ThreadHandle) (w : World) :
  handles w !! p = Some h → store_handle p h w = w.
Proof.
  intros H. destruct w as [hs ns]. unfold store_handle. cbn in *.
  f_equal. by apply insert_id.
Qed.

Lemma store_handle_lookup (p : nat) (h : ThreadHandle) (w : World) :
  handles (store_handle p h w) !! p = Some h.
Proof. cbn. apply lookup_insert_eq. Qed.

Lemma on_handle_store (p : nat) (f : ThreadHandle → ThreadHandle)
  (h : ThreadHandle) (w : World) :
  handles w !! p = Some h → on_handle p f w = store_handle p (f h) w.
Proof.
  intros H. unfold on_handle, store_handle. f_equal.
  apply map_eq. intros i. rewrite lookup_alter, lookup_insert.
  destruct (decide (p = i)) as [<- | Hne].
  - rewrite H. reflexivity.
  - reflexivity.
Qed.

(** ** C3 *)

(** C3, as the claim words it, fails: an interruption point does not pause.
    On the worker that was told to pause, [interruptionPoint] returns with
    the status still [Running], while the hook on the same worker sets
    [Paused] and waits. *)
Lemma interruptionPoint_does_not_pause :
  (command_ <$> handles (world_of pause_requested) !! 0%nat) = Some Pause
  ∧ interruptionPoint (Some 0%nat) (world_of pause_requested)
    = (Normal, world_of pause_requested)
  ∧ (status_ <$> handles (world_of pause_requested) !! 0%nat) = Some Running
  ∧ luaHook (Some 0%nat) [] (world_of pause_requested)
    = (Blocked, world_of (changeStatus Paused pause_requested), [])
  ∧ fst (interruptionPoint (Some 0%nat) (world_of pause_requested))
    ≠ fst (fst (luaHook (Some 0%nat) [] (world_of pause_requested))).
Proof.
  repeat split; try (vm_compute; reflexivity).
  vm_compute. intros H. discriminate H.
Qed.

(** C3, amended: at an interruption point the worker only looks for a
    pending cancel.  An observed [Cancel] leads to [changeStatus(Canceled)]
    and the stop exception; an observed [Run] or [Pause] changes nothing
    and the call returns.  On [Run] and [Cancel] this is what the hook does
    as well. *)
Theorem interruptionPoint_protocol (p : nat) (w : World) (h : ThreadHandle)
  (sched : list Label) :
  handles w !! p = Some h →
  interruptionPoint (Some p) w
  = match command_ h with
    | Cancel =>
        (Throw LuaHookStopException, store_handle p (changeStatus Canceled h) w)
    | Run | Pause => (Normal, w)
    end
  ∧ match command_ h with
    | Pause => True
    | Run | Cancel =>
        luaHook (Some p) sched w
        = (fst (interruptionPoint (Some p) w),
           snd (interruptionPoint (Some p) w), sched)
    end.
Proof.
  intros H. unfold interruptionPoint, luaHook. rewrite H.
  unfold interruptionPoint_handle, luaHook_handle.
  destruct (command_ h); repeat case_bool_decide; try done; cbn;
    rewrite ?(store_handle_same p h w H); split; done.
Qed.

Lemma interruptionPoint_protocol_witness :
  handles (world_of (putCommand Cancel ThreadHandle_new)) !! 0%nat
  = Some (putCommand Cancel ThreadHandle_new)
  ∧ interruptionPoint (Some 0%nat) (world_of (putCommand Cancel ThreadHandle_new))
    = (Throw LuaHookStopException,
       store_handle 0 (changeStatus Canceled (putCommand Cancel ThreadHandle_new))
         (world_of (putCommand Cancel ThreadHandle_new))).
Proof.
  split; [reflexivity |].
  apply (interruptionPoint_protocol 0 (world_of (putCommand Cancel ThreadHandle_new))
           (putCommand Cancel ThreadHandle_new) []).
  reflexivity.
Defined.

(** ** C10 *)

(** C10: on a thread whose [thisThreadHandle] is null, an interruption
    point and the construction and destruction of a
    [ScopedSetInterruptable] return normally and leave every handle and
    every notifier as they were. *)
Theorem no_handle_no_effect (w : World) (notifier : IInterruptable) :
  interruptionPoint None w = (Normal, w)
  ∧ ScopedSetInterruptable_ctor None notifier w = (Normal, w)
  ∧ ScopedSetInterruptable_dtor None w = (Normal, w).
Proof. repeat split. Qed.

(** ** C7 *)

Lemma waitForCommandChange_no_timeout (h : ThreadHandle) :
  waitForCommandChange NO_TIMEOUT h
  = if notified CommandNotifier h then Some (command_ h) else None.
Proof.
  unfold waitForCommandChange, Notifier.waitFor, notified, NO_TIMEOUT. cbn.
  destruct (Notifier.notified_ (commandNotifier_ h)); reflexivity.
Qed.

(** However the paused worker gets out of the loop, it has seen [Run] or
    [Cancel]; otherwise it is still paused. *)
Lemma pauseLoop_exit (sched : list Label) : ∀ h : ThreadHandle,
  status_ h = Paused →
  match pauseLoop sched h with
  | (Normal, h', _) => command_ h' = Run ∧ status_ h' = Running
  | (Throw e, h', _) =>
      e = LuaHookStopException ∧ command_ h' = Cancel ∧ status_ h' = Canceled
  | (Blocked, h', rest) => status_ h' = Paused ∧ rest = []
  | (Abort, _, _) => False
  end.
Proof.
  induction sched as [| l sched IH]; intros h Hp; cbn.
  - done.
  - destruct l as [| c | ms].
    + rewrite waitForCommandChange_no_timeout.
      destruct (notified CommandNotifier h); [| by apply IH].
      destruct (command_ h) eqn:Hc;
        repeat (case_bool_decide; try congruence); cbn.
      * by rewrite changeStatus_command, changeStatus_status.
      * by rewrite changeStatus_command, changeStatus_status.
      * by apply IH.
    + apply IH. by rewrite putCommand_status.
    + by apply IH.
Qed.

(** Being scheduled, the passing of time and further [Pause] commands do
    not get the worker out of the loop. *)
Lemma pauseLoop_stays (sched : list Label) : ∀ h : ThreadHandle,
  status_ h = Paused →
  command_ h = Pause ∨ notified CommandNotifier h = false →
  forallb (fun l => negb (resumes_or_cancels l)) sched = true →
  ∃ h', pauseLoop sched h = (Blocked, h', []) ∧ status_ h' = Paused.
Proof.
  induction sched as [| l sched IH]; intros h Hp Hc Hs; cbn.
  - by exists h.
  - cbn in Hs. apply andb_prop in Hs as [Hl Hs].
    destruct l as [| c | ms].
    + rewrite waitForCommandChange_no_timeout.
      destruct (notified CommandNotifier h) eqn:Hn; [| apply IH; auto].
      destruct Hc as [Hc | Hc]; [| discriminate Hc].
      rewrite Hc. repeat (case_bool_decide; try congruence); cbn.
      apply IH; auto.
    + destruct c; try discriminate Hl.
      apply IH; [by rewrite putCommand_status | | done].
      left. unfold putCommand. rewrite Hp. reflexivity.
    + by apply IH.
Qed.

(** C7: the hook that observes [Pause] sets the status to [Paused] and
    enters the wait loop.  The worker leaves the loop only after it has
    observed [Run], and then its status is [Running] and the hook returns,
    or after it has observed [Cancel], and then its status is [Canceled] and
    the stop exception unwinds.  While neither is put, nothing (being
    woken, time passing, another [Pause]) ends the wait: the hook is still
    blocked, with status [Paused], when the schedule ends. *)
Theorem paused_until_run_or_cancel (sched : list Label) (h : ThreadHandle) :
  command_ h = Pause →
  luaHook_handle sched h = pauseLoop sched (changeStatus Paused h)
  ∧ status_ (changeStatus Paused h) = Paused
  ∧ match luaHook_handle sched h with
    | (Normal, h', _) => command_ h' = Run ∧ status_ h' = Running
    | (Throw e, h', _) =>
        e = LuaHookStopException ∧ command_ h' = Cancel ∧ status_ h' = Canceled
    | (Blocked, h', rest) => status_ h' = Paused ∧ rest = []
    | (Abort, _, _) => False
    end
  ∧ (forallb (fun l => negb (resumes_or_cancels l)) sched = true →
     ∃ h', luaHook_handle sched h = (Blocked, h', []) ∧ status_ h' = Paused).
Proof.
  intros Hc. unfold luaHook_handle. rewrite Hc.
  split; [reflexivity |].
  split; [apply changeStatus_status |].
  split.
  - apply pauseLoop_exit, changeStatus_status.
  - intros Hs. apply pauseLoop_stays.
    + apply changeStatus_status.
    + right. apply changeStatus_latches.
    + exact Hs.
Qed.

Lemma paused_until_run_or_cancel_witness :
  command_ pause_requested = Pause
  ∧ ∃ h', luaHook_handle [LWorker; LElapse 50; LPut Pause; LWorker; LElapse 1000]
            pause_requested = (Blocked, h', [])
          ∧ status_ h' = Paused.
Proof.
  split; [reflexivity |].
  apply (paused_until_run_or_cancel
           [LWorker; LElapse 50; LPut Pause; LWorker; LElapse 1000]
           pause_requested); reflexivity.
Defined.

(** ** What the worker's own steps preserve *)

Lemma Action_nested_ind (P : Action → Prop) :
  P AHook → P AYield → P AInterruptionPoint →
  (∀ n inner, Forall P inner → P (AScoped n inner)) →
  (∀ c, P (AMeanwhile c)) →
  ∀ a, P a.
Proof.
  intros HH HY HI HS HM.
  refine (fix IH (a : Action) : P a :=
            match a with
            | AHook => HH
            | AYield => HY
            | AInterruptionPoint => HI
            | AScoped n inner =>
                HS n inner
                  ((fix all (l : list Action) : Forall P l :=
                      match l with
                      | [] => Forall_nil_2 P
                      | x :: l' => Forall_cons_2 P x l' (IH x) (all l')
                      end) inner)
            | AMeanwhile c => HM c
            end).
Qed.

Lemma putCommand_latched (cmd : Command) (h : ThreadHandle) :
  latched_when_finished h → latched_when_finished (putCommand cmd h).
Proof.
  unfold latched_when_finished. intros H.
  rewrite putCommand_status. intros Hf.
  rewrite (putCommand_terminal cmd h Hf). by apply H.
Qed.

Lemma changeStatus_latched (stat : Status) (h : ThreadHandle) :
  latched_when_finished (changeStatus stat h).
Proof. intros _. apply changeStatus_latches. Qed.

Lemma step_ok_intro (h : ThreadHandle) (c : Completion) (h' : ThreadHandle) :
  result_ h' = result_ h →
  currNotifier_ h' = currNotifier_ h →
  match c with
  | Normal => status_ h' = status_ h ∨ status_ h' = Running
  | Throw e => e = LuaHookStopException ∧ status_ h' = Canceled
  | Blocked => True
  | Abort => False
  end →
  (latched_when_finished h → latched_when_finished h') →
  step_ok h c h'.
Proof.
  intros Hr Hn Hc Hl. unfold step_ok.
  split; [exact Hr |].
  split; [intros e -> ; exact Hc |].
  split; [intros -> ; exact Hc |].
  split; [intros _ E; congruence |].
  split; [intros -> ; exact Hc | exact Hl].
Qed.

Lemma step_ok_refl (h : ThreadHandle) : step_ok h Normal h.
Proof. apply step_ok_intro; auto. Qed.

Lemma step_ok_trans (h h1 h2 : ThreadHandle) (c : Completion) :
  step_ok h Normal h1 → step_ok h1 c h2 → step_ok h c h2.
Proof.
  intros (R1 & _ & S1 & N1 & _ & L1) (R2 & T2 & S2 & N2 & A2 & L2).
  unfold step_ok.
  split; [congruence |].
  split; [exact T2 |].
  split.
  { intros Hc.
    destruct (S1 eq_refl), (S2 Hc); [left | right | right | right]; congruence. }
  split; [intros Hc Hn; apply N2; [done |]; by apply N1 |].
  split; [exact A2 | auto].
Qed.

Lemma step_ok_putCommand (cmd : Command) (h : ThreadHandle) :
  step_ok h Normal (putCommand cmd h).
Proof.
  apply step_ok_intro.
  - apply putCommand_result.
  - apply putCommand_currNotifier.
  - left. apply putCommand_status.
  - apply putCommand_latched.
Qed.

Lemma step_ok_changeStatus (h0 h : ThreadHandle) (c : Completion) (stat : Status) :
  result_ h = result_ h0 →
  currNotifier_ h = currNotifier_ h0 →
  c = Normal ∧ stat = Running
  ∨ c = Throw LuaHookStopException ∧ stat = Canceled →
  step_ok h0 c (changeStatus stat h).
Proof.
  intros Hr Hn Hc. apply step_ok_intro.
  - by rewrite changeStatus_result.
  - by rewrite changeStatus_currNotifier.
  - destruct Hc as [[-> ->] | [-> ->]].
    + right. apply changeStatus_status.
    + split; [done | apply changeStatus_status].
  - intros _. apply changeStatus_latched.
Qed.

Lemma step_ok_cancel (h : ThreadHandle) :
  step_ok h (Throw LuaHookStopException) (changeStatus Canceled h).
Proof. apply step_ok_changeStatus; auto. Qed.

Lemma pauseLoop_ok (sched : list Label) : ∀ h0 h : ThreadHandle,
  result_ h = result_ h0 →
  currNotifier_ h = currNotifier_ h0 →
  latched_when_finished h →
  step_ok h0 (pauseLoop sched h).1.1 (pauseLoop sched h).1.2.
Proof.
  induction sched as [| l sched IH]; intros h0 h Hr Hn Hl; cbn.
  - apply step_ok_intro; auto.
  - destruct l as [| c | ms].
    + rewrite waitForCommandChange_no_timeout.
      destruct (notified CommandNotifier h); [| by apply IH].
      destruct (command_ h) eqn:Hc;
        repeat (case_bool_decide; try congruence); cbn.
      * apply step_ok_changeStatus; auto.
      * apply step_ok_changeStatus; auto.
      * by apply IH.
    + apply IH.
      * by rewrite putCommand_result.
      * by rewrite putCommand_currNotifier.
      * by apply putCommand_latched.
    + by apply IH.
Qed.

Lemma luaHook_handle_ok (sched : list Label) (h : ThreadHandle) :
  step_ok h (luaHook_handle sched h).1.1 (luaHook_handle sched h).1.2.
Proof.
  unfold luaHook_handle. destruct (command_ h); cbn.
  - apply step_ok_refl.
  - apply step_ok_cancel.
  - apply pauseLoop_ok.
    + apply changeStatus_result.
    + apply changeStatus_currNotifier.
    + apply changeStatus_latched.
Qed.

Lemma interruptionPoint_handle_ok (h : ThreadHandle) :
  step_ok h (interruptionPoint_handle h).1 (interruptionPoint_handle h).2.
Proof.
  unfold interruptionPoint_handle. case_bool_decide; cbn.
  - apply step_ok_cancel.
  - apply step_ok_refl.
Qed.

Lemma step_ok_scoped (h : ThreadHandle) (n : IInterruptable) (c : Completion)
  (h2 : ThreadHandle) :
  step_ok (setNotifier (Some n) h) c h2 →
  c ≠ Blocked →
  step_ok h c (setNotifier None h2).
Proof.
  intros (R & T & S & _ & A & L) Hc. unfold step_ok.
  split; [exact R |].
  split; [exact T |].
  split; [exact S |].
  split; [done |].
  split; [exact A | exact L].
Qed.

Lemma step_ok_scoped_blocked (h : ThreadHandle) (n : IInterruptable)
  (h2 : ThreadHandle) :
  step_ok (setNotifier (Some n) h) Blocked h2 → step_ok h Blocked h2.
Proof.
  intros (R & T & S & _ & A & L). unfold step_ok.
  split; [exact R |].
  split; [exact T |].
  split; [exact S |].
  split; [done |].
  split; [exact A | exact L].
Qed.

Lemma run_actions_cons
  (step : Action → list Label → World → Completion * World * list Label)
  (a : Action) (acts : list Action) (sched : list Label) (w : World) :
  run_actions step (a :: acts) sched w
  = let '(c, w', sched') := step a sched w in
    match c with
    | Normal => run_actions step acts sched' w'
    | _ => (c, w', sched')
    end.
Proof. reflexivity. Qed.

Lemma run_actions_ok (p : nat) (acts : list Action) :
  Forall (fun a => keeps_handle p (perform p a)) acts →
  keeps_handle p (run_actions (perform p) acts).
Proof.
  induction 1 as [| a acts Ha _ IH]; intros sched w h Hw.
  - exists h. split; [exact Hw | apply step_ok_refl].
  - rewrite run_actions_cons.
    destruct (Ha sched w h Hw) as (h1 & Hw1 & Hs1).
    destruct (perform p a sched w) as [[c w1] sched1]. cbn in Hw1, Hs1.
    destruct c; try (exists h1; by split).
    destruct (IH sched1 w1 h1 Hw1) as (h2 & Hw2 & Hs2).
    exists h2. split; [exact Hw2 |].
    by apply (step_ok_trans h h1 h2).
Qed.

Lemma perform_ok (p : nat) (a : Action) : keeps_handle p (perform p a).
Proof.
  induction a as [| | | n inner IH | c] using Action_nested_ind;
    intros sched w h Hw.
  - cbn [perform]. unfold luaHook. rewrite Hw.
    pose proof (luaHook_handle_ok sched h) as Hs.
    destruct (luaHook_handle sched h) as [[c h'] sched']. cbn in *.
    exists h'. split; [apply lookup_insert_eq | exact Hs].
  - cbn [perform]. unfold yield, luaHook. rewrite Hw.
    pose proof (luaHook_handle_ok sched h) as Hs.
    destruct (luaHook_handle sched h) as [[c h'] sched']. cbn in *.
    exists h'. split; [apply lookup_insert_eq | exact Hs].
  - cbn [perform]. unfold interruptionPoint. rewrite Hw.
    pose proof (interruptionPoint_handle_ok h) as Hs.
    destruct (interruptionPoint_handle h) as [c h']. cbn in *.
    exists h'. split; [apply lookup_insert_eq | exact Hs].
  - cbn [perform]. unfold ScopedSetInterruptable_ctor. rewrite Hw.
    destruct (run_actions_ok p inner IH sched
                (store_handle p (setNotifier (Some n) h) w)
                (setNotifier (Some n) h) (store_handle_lookup _ _ _))
      as (h2 & Hw2 & Hs2).
    destruct (run_actions (perform p) inner sched _) as [[c w2] sched2].
    cbn in Hw2, Hs2.
    destruct c as [| e | |].
    + unfold ScopedSetInterruptable_dtor. rewrite Hw2. cbn.
      exists (setNotifier None h2). split; [apply lookup_insert_eq |].
      by apply (step_ok_scoped h n).
    + unfold ScopedSetInterruptable_dtor. rewrite Hw2. cbn.
      exists (setNotifier None h2). split; [apply lookup_insert_eq |].
      by apply (step_ok_scoped h n).
    + cbn. exists h2. split; [exact Hw2 |].
      by apply (step_ok_scoped_blocked h n).
    + by destruct Hs2 as (_ & _ & _ & _ & A & _).
  - cbn [perform]. rewrite (on_handle_store p _ h w Hw). cbn.
    exists (putCommand c h). split; [apply lookup_insert_eq |].
    apply step_ok_putCommand.
Qed.

Lemma run_body_ok (p : nat) (acts : list Action) :
  keeps_handle p (run_body p acts).
Proof.
  apply run_actions_ok, Forall_forall. intros a _. apply perform_ok.
Qed.

(** ** C5 *)

Lemma luaErrorHandler_store (p : nat) (stacktrace : string) (w : World)
  (h : ThreadHandle) :
  handles w !! p = Some h →
  luaErrorHandler (Some p) stacktrace w
  = Some (store_handle p
            (emplace_back (createStoredObject (LString stacktrace)) h) w).
Proof. intros Hw. unfold luaErrorHandler. cbn. by rewrite Hw. Qed.

Lemma call_function_error (cfg : Interpreter) (p : nat) (acts : list Action)
  (what traceback : string) (sched sched1 : list Label) (w w1 : World)
  (h1 : ThreadHandle) :
  run_body p acts sched w = (Normal, w1, sched1) →
  handles w1 !! p = Some h1 →
  call_function cfg p acts (Error what traceback) sched w
  = (Invalid what,
     if handler_installed cfg
     then store_handle p
            (emplace_back (createStoredObject (LString traceback)) h1) w1
     else w1,
     sched1).
Proof.
  intros Hb Hw1. unfold call_function. rewrite Hb.
  destruct (handler_installed cfg); [| reflexivity].
  by rewrite (luaErrorHandler_store _ _ _ h1 Hw1).
Qed.

(** C5, as the claim words it, fails when an error handler ran: the
    traceback it pushed does not become the description.  With the handler
    installed, the function that raises "boom" leaves three objects, the
    marker, the message and then the traceback, so [status()] is not
    ["failed", "boom"], and its second element is the message. *)
Lemma traceback_is_not_the_description :
  handler_installed lua53 = true
  ∧ Thread.status worker0
      (Thread.runThread lua53 worker0 raises_boom [] [] (world_of ThreadHandle_new)).1.2
    = Some [SString "failed"; SString "boom"; SString boom_traceback]
  ∧ Thread.status worker0
      (Thread.runThread lua53 worker0 raises_boom [] [] (world_of ThreadHandle_new)).1.2
    ≠ Some [SString "failed"; SString "boom"]
  ∧ Thread.status worker0
      (Thread.runThread lua53 worker0 raises_boom [] [] (world_of ThreadHandle_new)).1.2
    ≠ Some [SString "failed"; SString boom_traceback].
Proof.
  split; [reflexivity |].
  split; [vm_compute; reflexivity |].
  split; vm_compute; intros H; discriminate H.
Qed.

(** C5, amended: when the worker's function ends by raising an error, and
    was not cancelled, [runThread] returns with status [Failed] and has put
    exactly two objects in front of the result list: the marker "failed"
    and then the error's message.  A traceback pushed by the error handler
    (installed for Lua above 5.1) is not the description: it stays in the
    list behind those two.  [status()] then reports that list: marker and
    message when no handler ran, and marker, message and traceback when
    one did. *)
Theorem error_reported_as_failed (cfg : Interpreter) (thread : Thread.t)
  (function : Function) (arguments : StoredArray) (sched : list Label)
  (w : World) (h : ThreadHandle) (what traceback : string)
  (w1 : World) (sched1 : list Label) :
  handles w !! Thread.ctx_ thread = Some h →
  status_ h ≠ Canceled →
  finish (function arguments) = Error what traceback →
  run_body (Thread.ctx_ thread) (body (function arguments)) sched w
  = (Normal, w1, sched1) →
  ∃ w', Thread.runThread cfg thread function arguments sched w
        = (Normal, w', sched1)
        ∧ (status_ <$> handles w' !! Thread.ctx_ thread) = Some Failed
        ∧ Thread.status thread w'
          = Some ([SString "failed"; SString what] ++ result_ h
                  ++ (if handler_installed cfg then [SString traceback] else [])).
Proof.
  intros Hw Hs Hf Hb.
  destruct (run_body_ok _ (body (function arguments)) sched w h Hw)
    as (h1 & Hw1 & Hok).
  rewrite Hb in Hw1, Hok. cbn in Hw1, Hok.
  destruct Hok as (Hr & _ & Hst & _).
  assert (Hs1 : status_ h1 ≠ Canceled).
  { destruct (Hst eq_refl) as [E | E]; rewrite E; [exact Hs | discriminate]. }
  unfold Thread.runThread. rewrite Hw. cbn zeta.
  rewrite Hf, (call_function_error _ _ _ _ _ _ _ _ _ h1 Hb Hw1).
  set (h2 := if handler_installed cfg
             then emplace_back (createStoredObject (LString traceback)) h1
             else h1).
  assert (Hw2 : handles (if handler_installed cfg
                         then store_handle (Thread.ctx_ thread)
                                (emplace_back
                                   (createStoredObject (LString traceback)) h1) w1
                         else w1) !! Thread.ctx_ thread = Some h2).
  { subst h2. destruct (handler_installed cfg); [| exact Hw1].
    apply store_handle_lookup. }
  rewrite Hw2.
  assert (Hs2 : status_ h2 = status_ h1).
  { subst h2. by destruct (handler_installed cfg). }
  assert (Hr2 : result_ h2
                = result_ h ++ (if handler_installed cfg
                                then [SString traceback] else [])).
  { subst h2. destruct (handler_installed cfg); cbn.
    - by rewrite Hr.
    - by rewrite app_nil_r. }
  unfold runThread_handle, after_call.
  rewrite bool_decide_eq_false_2 by congruence.
  cbn. eexists. split; [reflexivity |].
  unfold Thread.status. rewrite !store_handle_lookup. cbn.
  split; [reflexivity |].
  unfold Thread.status_handle. cbn. by rewrite Hr2.
Qed.

Lemma error_reported_as_failed_witness :
  handles (world_of ThreadHandle_new) !! Thread.ctx_ worker0 = Some ThreadHandle_new
  ∧ status_ ThreadHandle_new ≠ Canceled
  ∧ finish (raises_boom []) = Error "boom" boom_traceback
  ∧ run_body (Thread.ctx_ worker0) (body (raises_boom [])) [] (world_of ThreadHandle_new)
    = (Normal, world_of ThreadHandle_new, [])
  ∧ ∃ w', Thread.runThread lua51 worker0 raises_boom [] [] (world_of ThreadHandle_new)
          = (Normal, w', [])
          ∧ (status_ <$> handles w' !! Thread.ctx_ worker0) = Some Failed
          ∧ Thread.status worker0 w' = Some [SString "failed"; SString "boom"].
Proof.
  split; [reflexivity |].
  split; [discriminate |].
  split; [reflexivity |].
  split; [reflexivity |].
  apply (error_reported_as_failed lua51 worker0 raises_boom [] []
           (world_of ThreadHandle_new) ThreadHandle_new "boom" boom_traceback
           (world_of ThreadHandle_new) []);
    [reflexivity | discriminate | reflexivity | reflexivity].
Defined.

(** ** C6 *)

Lemma runThread_handle_never_throws (r : CallResult) (h : ThreadHandle)
  (e : Exception) :
  (runThread_handle r h).1 ≠ Throw e.
Proof.
  unfold runThread_handle, after_call.
  destruct r as [vals | what | c]; cbn.
  - discriminate.
  - case_bool_decide; cbn; discriminate.
  - destruct c as [| e' | |]; cbn; try discriminate.
    destruct e'; cbn; discriminate.
Qed.

(** C6: the stop exception does not derive from [std::exception].  Whenever
    the user function is left by a cancellation unwind, [runThread] returns
    normally and the worker's status is [Canceled], be it that the
    exception reached the catch clause of [runThread] or that the protected
    call turned it into an error result; the status is not [Failed].  And
    no run of [runThread] ends with an exception leaving it. *)
Theorem cancellation_unwind_recovered (cfg : Interpreter) (thread : Thread.t)
  (function : Function) (arguments : StoredArray) (sched : list Label)
  (w : World) (h : ThreadHandle) (e : Exception)
  (w1 : World) (sched1 : list Label) :
  handles w !! Thread.ctx_ thread = Some h →
  run_body (Thread.ctx_ thread) (body (function arguments)) sched w
  = (Throw e, w1, sched1) →
  e = LuaHookStopException
  ∧ derives_std_exception e = false
  ∧ (∃ w', Thread.runThread cfg thread function arguments sched w
           = (Normal, w', sched1)
           ∧ (status_ <$> handles w' !! Thread.ctx_ thread) = Some Canceled
           ∧ (status_ <$> handles w' !! Thread.ctx_ thread) ≠ Some Failed
           ∧ Thread.status thread w' = Some [SString "canceled"])
  ∧ (∀ cfg' thread' function' arguments' sched' w0 e',
       (Thread.runThread cfg' thread' function' arguments' sched' w0).1.1
       ≠ Throw e').
Proof.
  intros Hw Hb.
  destruct (run_body_ok _ (body (function arguments)) sched w h Hw)
    as (h1 & Hw1 & Hok).
  rewrite Hb in Hw1, Hok. cbn in Hw1, Hok.
  destruct Hok as (_ & Ht & _).
  destruct (Ht e eq_refl) as [-> Hs1].
  split; [reflexivity |].
  split; [reflexivity |].
  split.
  - unfold Thread.runThread. rewrite Hw. cbn zeta.
    unfold call_function. rewrite Hb.
    destruct (catches_foreign cfg); rewrite Hw1;
      unfold runThread_handle, after_call.
    + rewrite bool_decide_eq_true_2 by exact Hs1.
      cbn. eexists. split; [reflexivity |].
      unfold Thread.status. rewrite !store_handle_lookup. cbn.
      unfold Thread.status_handle. cbn. rewrite Hs1. done.
    + cbn. eexists. split; [reflexivity |].
      unfold Thread.status. rewrite !store_handle_lookup. cbn. done.
  - intros cfg' thread' function' arguments' sched' w0 e'.
    unfold Thread.runThread.
    destruct (handles w0 !! Thread.ctx_ thread'); [| cbn; discriminate].
    cbn zeta.
    destruct (call_function _ _ _ _ _ _) as [[r w2] sched2].
    destruct (handles w2 !! Thread.ctx_ thread') as [h2 |]; [| cbn; discriminate].
    pose proof (runThread_handle_never_throws r h2 e') as Hn.
    destruct (runThread_handle r h2) as [c h3]. exact Hn.
Qed.

Lemma cancellation_unwind_recovered_witness :
  handles (world_of ThreadHandle_new) !! Thread.ctx_ worker0 = Some ThreadHandle_new
  ∧ (run_body (Thread.ctx_ worker0) (body (cancelled_in_call [])) []
       (world_of ThreadHandle_new)).1.1 = Throw LuaHookStopException
  ∧ ∃ w', Thread.runThread lua53 worker0 cancelled_in_call [] []
            (world_of ThreadHandle_new) = (Normal, w', [])
          ∧ (status_ <$> handles w' !! Thread.ctx_ worker0) = Some Canceled
          ∧ (status_ <$> handles w' !! Thread.ctx_ worker0) ≠ Some Failed
          ∧ Thread.status worker0 w' = Some [SString "canceled"].
Proof.
  split; [reflexivity |].
  split; [vm_compute; reflexivity |].
  apply (cancellation_unwind_recovered lua53 worker0 cancelled_in_call [] []
           (world_of ThreadHandle_new) ThreadHandle_new LuaHookStopException
           (run_body (Thread.ctx_ worker0) (body (cancelled_in_call [])) []
              (world_of ThreadHandle_new)).1.2 []);
    [reflexivity | vm_compute; reflexivity].
Defined.

(** ** C8 *)

(** When [runThread] has returned, the worker's status is terminal, its
    status notifier is latched and no interruptable is registered. *)
Lemma runThread_leaves_finished (cfg : Interpreter) (thread : Thread.t)
  (function : Function) (arguments : StoredArray) (sched : list Label)
  (w : World) (h : ThreadHandle) (w' : World) (sched' : list Label) :
  handles w !! Thread.ctx_ thread = Some h →
  latched_when_finished h →
  currNotifier_ h = None →
  Thread.runThread cfg thread function arguments sched w = (Normal, w', sched') →
  ∃ h', handles w' !! Thread.ctx_ thread = Some h'
        ∧ isFinishStatus (status_ h') = true
        ∧ notified StatusNotifier h' = true
        ∧ currNotifier_ h' = None.
Proof.
  intros Hw Hl Hn. unfold Thread.runThread. rewrite Hw. cbn zeta.
  unfold call_function.
  destruct (run_body_ok _ (body (function arguments)) sched w h Hw)
    as (h1 & Hw1 & Hok).
  destruct (run_body _ _ sched w) as [[c w1] sched1]. cbn in Hw1, Hok.
  destruct Hok as (_ & Ht & _ & Hn1 & _ & Hl1).
  specialize (Hl1 Hl).
  destruct c as [| e | |].
  - specialize (Hn1 ltac:(discriminate) Hn).
    destruct (finish (function arguments)) as [vals | what tb].
    + rewrite Hw1. unfold runThread_handle, after_call. cbn.
      intros [= <- <-]. eexists. split; [apply store_handle_lookup |].
      rewrite changeStatus_status, changeStatus_currNotifier.
      split; [reflexivity |]. split; [apply changeStatus_latches |].
      cbn. clear -Hn1. revert h1 Hn1.
      induction vals as [| v vals IH]; intros h1 Hn1; cbn; [exact Hn1 |].
      apply IH. unfold store_return.
      destruct (gcHandle (createStoredObject v)); exact Hn1.
    + assert (Hgen : ∀ w2 h2,
                handles w2 !! Thread.ctx_ thread = Some h2 →
                status_ h2 = status_ h1 →
                statusNotifier_ h2 = statusNotifier_ h1 →
                currNotifier_ h2 = None →
                (let '(c, h3) := runThread_handle (Invalid what) h2 in
                 (c, store_handle (Thread.ctx_ thread) h3 w2, sched1))
                = (Normal, w', sched') →
                ∃ h', handles w' !! Thread.ctx_ thread = Some h'
                      ∧ isFinishStatus (status_ h') = true
                      ∧ notified StatusNotifier h' = true
                      ∧ currNotifier_ h' = None).
      { intros w2 h2 Hw2 Hs2 Hsn2 Hn2.
        unfold runThread_handle, after_call.
        case_bool_decide as Hc; cbn.
        * intros [= <- <-]. eexists. split; [apply store_handle_lookup |].
          cbn. rewrite Hc. split; [reflexivity |]. split; [| exact Hn2].
          unfold notified. cbn. rewrite Hsn2. apply Hl1. by rewrite <- Hs2, Hc.
        * intros [= <- <-]. eexists. split; [apply store_handle_lookup |].
          rewrite changeStatus_status, changeStatus_currNotifier.
          split; [reflexivity |]. split; [apply changeStatus_latches | exact Hn2]. }
      destruct (handler_installed cfg).
      * rewrite (luaErrorHandler_store _ _ _ h1 Hw1), store_handle_lookup.
        by apply Hgen; [apply store_handle_lookup | | |].
      * rewrite Hw1. by apply Hgen.
  - destruct (Ht e eq_refl) as [-> Hs1].
    specialize (Hn1 ltac:(discriminate) Hn).
    destruct (catches_foreign cfg); rewrite Hw1;
      unfold runThread_handle, after_call.
    + rewrite bool_decide_eq_true_2 by exact Hs1. cbn.
      intros [= <- <-]. eexists. split; [apply store_handle_lookup |].
      cbn. rewrite Hs1. split; [reflexivity |]. split; [| exact Hn1].
      apply Hl1. by rewrite Hs1.
    + cbn. intros [= <- <-]. eexists. split; [apply store_handle_lookup |].
      rewrite changeStatus_status, changeStatus_currNotifier.
      split; [reflexivity |]. split; [apply changeStatus_latches | exact Hn1].
  - rewrite Hw1. cbn. discriminate.
  - rewrite Hw1. cbn. discriminate.
Qed.

(** C8, as the claim words it, fails while a cancelled worker is still
    unwinding out of a blocking call.  The worker here was cancelled while
    running and reached the interruption point of a blocking call on
    notifier 7 afterwards: its status is [Canceled] and the call's notifier
    is still registered.  A second [cancel] returns [true], and
    [putCommand] has no effect, but [interrupt] notifies notifier 7, so the
    call is not a no-op. *)
Lemma second_cancel_notifies_registered_notifier :
  (status_ <$> handles unwinding !! Thread.ctx_ worker0) = Some Canceled
  ∧ (currNotifier_ <$> handles unwinding !! Thread.ctx_ worker0)
    = Some (Some 7%nat)
  ∧ (notified StatusNotifier <$> handles unwinding !! Thread.ctx_ worker0)
    = Some true
  ∧ (Thread.cancel millis worker0 None None unwinding).1 = Some true
  ∧ on_handle (Thread.ctx_ worker0) (putCommand Cancel) unwinding = unwinding
  ∧ notifiers unwinding !! 7%nat = Some Notifier.create
  ∧ notifiers (interrupt (Thread.ctx_ worker0) unwinding) !! 7%nat
    = Some (Notifier.notify Notifier.create)
  ∧ interrupt (Thread.ctx_ worker0) unwinding ≠ unwinding
  ∧ (Thread.cancel millis worker0 None None unwinding).2 ≠ unwinding.
Proof.
  split; [vm_compute; reflexivity |].
  split; [vm_compute; reflexivity |].
  split; [vm_compute; reflexivity |].
  split; [vm_compute; reflexivity |].
  split; [vm_compute; reflexivity |].
  split; [vm_compute; reflexivity |].
  split; [vm_compute; reflexivity |].
  split; intros H; apply (f_equal (fun w => notifiers w !! 7%nat)) in H;
    vm_compute in H; discriminate H.
Qed.

Lemma interrupt_handles (p : nat) (w : World) :
  handles (interrupt p w) = handles w.
Proof.
  unfold interrupt. destruct (handles w !! p) as [h |]; [| reflexivity].
  destruct (currNotifier_ h); reflexivity.
Qed.

Lemma interrupt_notifiers (p : nat) (w : World) (h : ThreadHandle) :
  handles w !! p = Some h →
  notifiers (interrupt p w)
  = match currNotifier_ h with
    | Some n => alter Notifier.notify n (notifiers w)
    | None => notifiers w
    end.
Proof.
  intros Hw. unfold interrupt. rewrite Hw.
  destruct (currNotifier_ h); reflexivity.
Qed.

Lemma interrupt_twice (p : nat) (w : World) :
  interrupt p (interrupt p w) = interrupt p w.
Proof.
  unfold interrupt. destruct (handles w !! p) as [h |] eqn:Hw; [| by rewrite Hw].
  destruct (currNotifier_ h) as [n |] eqn:Hn; cbn; rewrite Hw, Hn; [| reflexivity].
  cbn. f_equal. rewrite alter_alter_eq. by apply alter_ext.
Qed.

(** C8, amended: on a worker whose status is already terminal (its status
    notifier latched by the last [changeStatus]) [cancel] returns [true],
    for any duration: [putCommand] has no effect, no handle changes, and
    [waitForStatusChange] returns the terminal status at once.  All that
    [cancel] can still change is done by [interrupt]: with no interruptable
    registered, as [runThread] leaves the handle, it has no effect and the
    call is a no-op; while the worker is still unwinding out of a blocking
    call, it notifies that call's notifier and nothing else.  A further
    [cancel] after that one changes nothing. *)
Theorem cancel_on_terminal_worker (fromLuaTime : Z → option string → Z)
  (thread : Thread.t) (duration : option Z) (period : option string)
  (w : World) (h : ThreadHandle) :
  handles w !! Thread.ctx_ thread = Some h →
  isFinishStatus (status_ h) = true →
  notified StatusNotifier h = true →
  Thread.cancel fromLuaTime thread duration period w
  = (Some true, interrupt (Thread.ctx_ thread) w)
  ∧ on_handle (Thread.ctx_ thread) (putCommand Cancel) w = w
  ∧ handles (interrupt (Thread.ctx_ thread) w) = handles w
  ∧ notifiers (interrupt (Thread.ctx_ thread) w)
    = match currNotifier_ h with
      | Some n => alter Notifier.notify n (notifiers w)
      | None => notifiers w
      end
  ∧ (currNotifier_ h = None →
     Thread.cancel fromLuaTime thread duration period w = (Some true, w))
  ∧ waitForStatusChange (Thread.toOptionalTime fromLuaTime duration period) h
    = Some (status_ h)
  ∧ (∀ (duration' : option Z) (period' : option string),
       Thread.cancel fromLuaTime thread duration' period'
         (Thread.cancel fromLuaTime thread duration period w).2
       = (Some true, (Thread.cancel fromLuaTime thread duration period w).2)).
Proof.
  intros Hw Hf Hl.
  assert (Hput : on_handle (Thread.ctx_ thread) (putCommand Cancel) w = w).
  { rewrite (on_handle_store _ _ h w Hw), (putCommand_terminal _ _ Hf).
    by apply store_handle_same. }
  assert (Hwait : ∀ d p,
            waitForStatusChange (Thread.toOptionalTime fromLuaTime d p) h
            = Some (status_ h)).
  { intros d p. unfold waitForStatusChange, Notifier.waitFor.
    unfold notified in Hl. cbn in Hl. by rewrite Hl. }
  assert (Hcancel : ∀ d p,
            Thread.cancel fromLuaTime thread d p w
            = (Some true, interrupt (Thread.ctx_ thread) w)).
  { intros d p. unfold Thread.cancel. rewrite Hput.
    rewrite interrupt_handles, Hw. cbn. rewrite Hwait. cbn. by rewrite Hf. }
  split; [apply Hcancel |]. split; [exact Hput |].
  split; [apply interrupt_handles |].
  split; [by apply interrupt_notifiers |].
  split.
  { intros Hn. rewrite Hcancel. unfold interrupt. by rewrite Hw, Hn. }
  split; [apply Hwait |].
  intros d' p'. rewrite Hcancel. cbn [snd].
  unfold Thread.cancel.
  assert (Hput' : on_handle (Thread.ctx_ thread) (putCommand Cancel)
                    (interrupt (Thread.ctx_ thread) w)
                  = interrupt (Thread.ctx_ thread) w).
  { assert (Hw' : handles (interrupt (Thread.ctx_ thread) w)
                    !! Thread.ctx_ thread = Some h)
      by (by rewrite interrupt_handles).
    rewrite (on_handle_store _ _ h _ Hw'), (putCommand_terminal _ _ Hf).
    by apply store_handle_same. }
  rewrite Hput', interrupt_twice, interrupt_handles, Hw. cbn.
  rewrite Hwait. cbn. by rewrite Hf.
Qed.

Lemma cancel_on_terminal_worker_witness :
  handles unwinding !! Thread.ctx_ worker0 = Some unwinding_handle
  ∧ isFinishStatus (status_ unwinding_handle) = true
  ∧ notified StatusNotifier unwinding_handle = true
  ∧ Thread.cancel millis worker0 None None unwinding
    = (Some true, interrupt (Thread.ctx_ worker0) unwinding).
Proof.
  assert (H1 : handles unwinding !! Thread.ctx_ worker0 = Some unwinding_handle)
    by (vm_compute; reflexivity).
  assert (H2 : isFinishStatus (status_ unwinding_handle) = true)
    by reflexivity.
  assert (H3 : notified StatusNotifier unwinding_handle = true)
    by reflexivity.
  split; [exact H1 |]. split; [exact H2 |]. split; [exact H3 |].
  exact (proj1 (cancel_on_terminal_worker millis worker0 None None unwinding
                  unwinding_handle H1 H2 H3)).
Defined.

(** ** C9 *)

Lemma lua_pushvalue_top (v : Lua.Value) (st : list Lua.Value)
  (o : gmap nat Lua.Object) (r : gmap string Lua.Value) :
  Lua.lua_pushvalue (Lua.mkState (v :: st) o r) (-1)
  = Some (Lua.mkState (v :: v :: st) o r).
Proof. reflexivity. Qed.

Lemma lua_setfield_second (v : Lua.Value) (a : nat) (st : list Lua.Value)
  (o : gmap nat Lua.Object) (r : gmap string Lua.Value) (k : string)
  (f : gmap string Lua.Value) (mt : option nat) :
  o !! a = Some (Lua.OTable f mt) →
  Lua.lua_setfield (Lua.mkState (v :: Lua.VTable a :: st) o r) (-2) k
  = Some (Lua.mkState (Lua.VTable a :: st)
            (<[a := Lua.OTable (<[k := v]> f) mt]> o) r).
Proof.
  intros H. unfold Lua.lua_setfield. cbn [Lua.stack Lua.objects Lua.registry].
  rewrite bool_decide_eq_false_2 by done.
  change (Lua.index2value _ (-2)) with (Some (Lua.VTable a)).
  cbn [mbind option_bind]. by rewrite H.
Qed.

Lemma lua_setmetatable_second (m a : nat) (st : list Lua.Value)
  (o : gmap nat Lua.Object) (r : gmap string Lua.Value) (sz : Z)
  (mt : option nat) :
  o !! a = Some (Lua.OUserdata sz mt) →
  Lua.lua_setmetatable
    (Lua.mkState (Lua.VTable m :: Lua.VUserdata a :: st) o r) (-2)
  = Some (Lua.mkState (Lua.VUserdata a :: st)
            (<[a := Lua.OUserdata sz (Some m)]> o) r).
Proof.
  intros H. unfold Lua.lua_setmetatable.
  cbn [Lua.stack Lua.objects Lua.registry].
  change (Lua.index2value _ (-2)) with (Some (Lua.VUserdata a)).
  cbn [mbind option_bind]. by rewrite H.
Qed.

Lemma lua_setfield_registry (v : Lua.Value) (st : list Lua.Value)
  (o : gmap nat Lua.Object) (r : gmap string Lua.Value) (k : string) :
  Lua.lua_setfield (Lua.mkState (v :: st) o r) Lua.LUA_REGISTRYINDEX k
  = Some (Lua.mkState st o (<[k := v]> r)).
Proof.
  unfold Lua.lua_setfield. cbn [Lua.stack Lua.objects Lua.registry].
  by rewrite bool_decide_eq_true_2.
Qed.

(** The first call: a new userdata whose metatable has [__index] (the
    metatable itself) and [__gc] is stored in the registry; the stack and
    every object that was there are as before. *)
Lemma register_cookie_first (L : Lua.State) :
  ∃ (L' : Lua.State) (a m : nat),
    Shutdown.register_cookie false L = (true, Some L')
    ∧ (a ∉ dom (Lua.objects L)) ∧ (m ∉ dom (Lua.objects L)) ∧ a ≠ m
    ∧ Lua.stack L' = Lua.stack L
    ∧ Lua.registry L'
      = <["effil_shutdown_cookie" := Lua.VUserdata a]> (Lua.registry L)
    ∧ Lua.objects L' !! a
      = Some (Lua.OUserdata Shutdown.sizeof_Shutdown (Some m))
    ∧ Lua.objects L' !! m
      = Some (Lua.OTable
                (<["__gc" := Lua.VCFunction "Shutdown::gc"]>
                   (<["__index" := Lua.VTable m]> ∅)) None)
    ∧ (∀ k, k ∈ dom (Lua.objects L) → Lua.objects L' !! k = Lua.objects L !! k).
Proof.
  destruct L as [st objs reg].
  unfold Shutdown.register_cookie, Shutdown.exchange.
  unfold Lua.lua_newuserdata, Lua.lua_createtable, Lua.lua_pushcfunction, Lua.push.
  cbn [mbind option_bind Lua.objects Lua.stack Lua.registry].
  set (a := fresh (dom objs)).
  set (u := Lua.OUserdata Shutdown.sizeof_Shutdown None).
  set (m := fresh (dom (<[a := u]> objs))).
  assert (Ha : a ∉ dom objs) by apply is_fresh.
  assert (Hm : m ∉ dom (<[a := u]> objs)) by apply is_fresh.
  rewrite dom_insert_L in Hm.
  assert (Hma : m ≠ a) by set_solver.
  assert (Hmo : m ∉ dom objs) by set_solver.
  rewrite lua_pushvalue_top. cbn [mbind option_bind].
  erewrite lua_setfield_second by apply lookup_insert_eq.
  cbn [mbind option_bind Lua.objects Lua.stack Lua.registry].
  erewrite lua_setfield_second by apply lookup_insert_eq.
  cbn [mbind option_bind Lua.objects Lua.stack Lua.registry].
  rewrite !insert_insert_eq.
  erewrite lua_setmetatable_second
    by (rewrite lookup_insert_ne by exact Hma; apply lookup_insert_eq).
  cbn [mbind option_bind].
  rewrite lua_setfield_registry.
  eexists _, a, m. split; [reflexivity |].
  cbn [Lua.objects Lua.stack Lua.registry].
  repeat split; try done.
  - apply lookup_insert_eq.
  - rewrite lookup_insert_ne by done. apply lookup_insert_eq.
  - intros k Hk.
    rewrite !lookup_insert_ne by (intros ->; contradiction). reflexivity.
Qed.

Lemma register_cookies_registered (Ls : list Lua.State) :
  Shutdown.register_cookies true Ls = (true, Some <$> Ls).
Proof.
  induction Ls as [| L Ls IH]; [reflexivity |].
  cbn. rewrite IH. reflexivity.
Qed.

(** C9: only the call of [register_cookie] that finds the flag clear
    registers the cookie: it sets the flag and stores the userdata with the
    [__gc] metatable in the registry of its Lua state.  A call that finds
    the flag set returns its Lua state untouched.  So in any sequence of
    calls, whatever Lua state each is given, the first registers and all
    later ones change nothing. *)
Theorem register_cookie_only_first (L : Lua.State) (Ls : list Lua.State) :
  (∃ (L' : Lua.State) (a m : nat),
     Shutdown.register_cookie false L = (true, Some L')
     ∧ (a ∉ dom (Lua.objects L)) ∧ (m ∉ dom (Lua.objects L)) ∧ a ≠ m
     ∧ Lua.stack L' = Lua.stack L
     ∧ Lua.registry L' !! "effil_shutdown_cookie" = Some (Lua.VUserdata a)
     ∧ Lua.objects L' !! a
       = Some (Lua.OUserdata Shutdown.sizeof_Shutdown (Some m))
     ∧ Lua.objects L' !! m
       = Some (Lua.OTable
                 (<["__gc" := Lua.VCFunction "Shutdown::gc"]>
                    (<["__index" := Lua.VTable m]> ∅)) None))
  ∧ Shutdown.register_cookie true L = (true, Some L)
  ∧ Shutdown.register_cookies false (L :: Ls)
    = (true, (Shutdown.register_cookie false L).2 :: (Some <$> Ls))
  ∧ Shutdown.register_cookies true (L :: Ls) = (true, Some <$> (L :: Ls)).
Proof.
  split; [| split; [reflexivity | split]].
  - destruct (register_cookie_first L)
      as (L' & a & m & E & Ha & Hm & Ham & Hst & Hreg & Hoa & Hom & _).
    exists L', a, m. rewrite Hreg. repeat split; try done.
    apply lookup_insert_eq.
  - destruct (register_cookie_first L) as (L' & a & m & E & _).
    cbn [Shutdown.register_cookies]. rewrite E.
    rewrite register_cookies_registered. reflexivity.
  - apply register_cookies_registered.
Qed.

(** ** C4 *)

Lemma SIZE_MAX_value : Shutdown.SIZE_MAX = 18446744073709551615.
Proof. reflexivity. Qed.

Lemma consistent_size (N : nat) (s : Shutdown.Process) :
  Shutdown.consistent N s → (size (Shutdown.inLoop s) ≤ N)%nat.
Proof.
  intros [_ Hsub]. apply subseteq_size in Hsub.
  by rewrite size_set_seq in Hsub.
Qed.

Lemma threadStart_increments (N : nat) (s : Shutdown.Process) (wk : nat) :
  Z.of_nat N ≤ Shutdown.SIZE_MAX →
  Shutdown.consistent N s →
  (wk < N)%nat →
  wk ∉ Shutdown.inLoop s →
  Shutdown.consistent N (Shutdown.worker_event (Shutdown.HookLoopBegin wk) s)
  ∧ Shutdown.activeThreads
      (Shutdown.globals (Shutdown.worker_event (Shutdown.HookLoopBegin wk) s))
    = Shutdown.activeThreads (Shutdown.globals s) + 1.
Proof.
  intros HN Hc Hwk Hnot.
  assert (Hsz : size ({[wk]} ∪ Shutdown.inLoop s)
                = S (size (Shutdown.inLoop s))).
  { rewrite size_union by set_solver. by rewrite size_singleton. }
  assert (Hsub : {[wk]} ∪ Shutdown.inLoop s ⊆ set_seq 0 N).
  { destruct Hc as [_ Hsub]. intros x Hx.
    apply elem_of_union in Hx as [Hx | Hx]; [| by apply Hsub].
    apply elem_of_singleton in Hx as ->. apply elem_of_set_seq. lia. }
  assert (Hle : (S (size (Shutdown.inLoop s)) ≤ N)%nat).
  { rewrite <- Hsz. apply subseteq_size in Hsub.
    by rewrite size_set_seq in Hsub. }
  destruct Hc as [Hcount _].
  unfold Shutdown.worker_event.
  unfold Shutdown.consistent, Shutdown.activeThreads, Shutdown.threadStart.
  cbn. rewrite Hsz, Hcount. rewrite SIZE_MAX_value in *.
  rewrite Z.mod_small by lia.
  split; [split; [lia | exact Hsub] | reflexivity].
Qed.

Lemma threadFinish_decrements (N : nat) (s : Shutdown.Process) (wk : nat) :
  Z.of_nat N ≤ Shutdown.SIZE_MAX →
  Shutdown.consistent N s →
  wk ∈ Shutdown.inLoop s →
  Shutdown.consistent N (Shutdown.worker_event (Shutdown.HookLoopEnd wk) s)
  ∧ Shutdown.activeThreads
      (Shutdown.globals (Shutdown.worker_event (Shutdown.HookLoopEnd wk) s))
    = Shutdown.activeThreads (Shutdown.globals s) - 1.
Proof.
  intros HN Hc Hin.
  pose proof (consistent_size N s Hc) as Hle.
  assert (Hsz : S (size (Shutdown.inLoop s ∖ {[wk]}))
                = size (Shutdown.inLoop s)).
  { rewrite size_difference by set_solver. rewrite size_singleton.
    assert (size (Shutdown.inLoop s) ≠ 0%nat); [| lia].
    intros H0. apply size_empty_iff in H0. set_solver. }
  destruct Hc as [Hcount Hsub].
  unfold Shutdown.worker_event.
  unfold Shutdown.consistent, Shutdown.activeThreads, Shutdown.threadFinish.
  cbn. rewrite Hcount. rewrite SIZE_MAX_value in *.
  rewrite Z.mod_small by lia.
  split; [split; [lia | by apply subseteq_difference_l] | reflexivity].
Qed.

Lemma worker_events_app (es1 es2 : list Shutdown.WorkerEvent)
  (s : Shutdown.Process) :
  Shutdown.worker_events (es1 ++ es2) s
  = Shutdown.worker_events es2 (Shutdown.worker_events es1 s).
Proof. unfold Shutdown.worker_events. apply fold_left_app. Qed.

(** The workers do not write the flag. *)
Lemma worker_events_flag (es : list Shutdown.WorkerEvent) :
  ∀ s : Shutdown.Process,
    Shutdown.SHUTDOWN (Shutdown.globals (Shutdown.worker_events es s))
    = Shutdown.SHUTDOWN (Shutdown.globals s).
Proof.
  induction es as [| e es IH]; intros s; [reflexivity |].
  unfold Shutdown.worker_events in *. cbn [fold_left]. rewrite IH.
  by destruct e.
Qed.

Lemma bracketed_app (es1 es2 : list Shutdown.WorkerEvent) :
  ∀ s : Shutdown.Process,
    Shutdown.bracketed (es1 ++ es2) (Shutdown.inLoop s)
    = Shutdown.bracketed es1 (Shutdown.inLoop s)
      && Shutdown.bracketed es2
           (Shutdown.inLoop (Shutdown.worker_events es1 s)).
Proof.
  induction es1 as [| e es1 IH]; intros s; [reflexivity |].
  destruct e as [wk | wk]; cbn [app Shutdown.bracketed];
    rewrite <- andb_assoc; f_equal.
  - apply (IH (Shutdown.worker_event (Shutdown.HookLoopBegin wk) s)).
  - apply (IH (Shutdown.worker_event (Shutdown.HookLoopEnd wk) s)).
Qed.

(** Events that come in pairs keep the counter equal to the number of
    workers inside their hook loop. *)
Lemma worker_events_consistent (N : nat) (es : list Shutdown.WorkerEvent) :
  Z.of_nat N ≤ Shutdown.SIZE_MAX →
  forallb (fun e => Nat.ltb (Shutdown.worker_of e) N) es = true →
  ∀ s, Shutdown.bracketed es (Shutdown.inLoop s) = true →
       Shutdown.consistent N s →
       Shutdown.consistent N (Shutdown.worker_events es s).
Proof.
  intros HN. induction es as [| e es IH]; intros Hes s Hbr Hc; [done |].
  cbn in Hes. apply andb_prop in Hes as [He Hes].
  apply Nat.ltb_lt in He.
  assert (Hstep : Shutdown.consistent N (Shutdown.worker_event e s)
                  ∧ Shutdown.bracketed es
                      (Shutdown.inLoop (Shutdown.worker_event e s)) = true).
  { destruct e as [wk | wk]; cbn [Shutdown.bracketed] in Hbr;
      apply andb_prop in Hbr as [Hg Hbr]; apply bool_decide_eq_true_1 in Hg;
      cbn in He; (split; [| exact Hbr]).
    - by apply threadStart_increments.
    - by apply threadFinish_decrements. }
  destruct Hstep as [Hc1 Hbr1].
  exact (IH Hes _ Hbr1 Hc1).
Qed.

Lemma workers_below_take (N : nat) (sched : list (list Shutdown.WorkerEvent))
  (n : nat) :
  Shutdown.workers_below N sched = true →
  forallb (fun e => Nat.ltb (Shutdown.worker_of e) N) (concat (take n sched))
  = true.
Proof.
  intros Hb. apply forallb_forall. intros e He.
  apply in_concat in He as (es & Hes & He).
  unfold Shutdown.workers_below in Hb.
  rewrite forallb_forall in Hb.
  assert (Hin : In es sched).
  { apply list_elem_of_In. apply list_elem_of_In in Hes.
    eapply subseteq_take, Hes. }
  specialize (Hb es Hin). rewrite forallb_forall in Hb. by apply Hb.
Qed.

Lemma bracketed_take (sched : list (list Shutdown.WorkerEvent)) (n : nat)
  (s : Shutdown.Process) :
  Shutdown.bracketed (concat sched) (Shutdown.inLoop s) = true →
  Shutdown.bracketed (concat (take n sched)) (Shutdown.inLoop s) = true.
Proof.
  intros Hbr. rewrite <- (take_drop n sched), concat_app, bracketed_app in Hbr.
  by apply andb_prop in Hbr as [Hbr _].
Qed.

(** At every poll of a paired schedule the counter is the number of workers
    inside their hook loop. *)
Lemma count_at_size (N : nat) (sched : list (list Shutdown.WorkerEvent))
  (s : Shutdown.Process) (k : nat) :
  Z.of_nat N ≤ Shutdown.SIZE_MAX →
  Shutdown.workers_below N sched = true →
  Shutdown.bracketed (concat sched) (Shutdown.inLoop s) = true →
  Shutdown.consistent N s →
  count_at sched s k
  = Z.of_nat
      (size (Shutdown.inLoop
               (Shutdown.worker_events (concat (take (S k) sched))
                  (flag_stored s)))).
Proof.
  intros HN Hb Hbr Hc. unfold count_at, Shutdown.activeThreads.
  apply (worker_events_consistent N _ HN (workers_below_take N sched (S k) Hb)
           (flag_stored s)).
  - exact (bracketed_take sched (S k) (flag_stored s) Hbr).
  - exact Hc.
Qed.

Lemma flat_map_shift {A : Type} (f : nat → list A) (k : nat) :
  flat_map f (seq 1 k) = flat_map (fun j => f (S j)) (seq 0 k).
Proof.
  rewrite <- seq_shift. generalize (seq 0 k). intros l.
  induction l as [| x l IH]; [reflexivity |].
  cbn. by rewrite IH.
Qed.

Lemma poll_characterised (sched : list (list Shutdown.WorkerEvent)) :
  ∀ s0 : Shutdown.Process,
    match Shutdown.poll sched s0 with
    | Some (s', ops) =>
        ∃ k : nat,
          (k < length sched)%nat
          ∧ s' = Shutdown.worker_events (concat (take (S k) sched)) s0
          ∧ Shutdown.activeThreads (Shutdown.globals s') ≤ 0
          ∧ (∀ j : nat, (j < k)%nat →
               0 < Shutdown.activeThreads
                     (Shutdown.globals
                        (Shutdown.worker_events (concat (take (S j) sched)) s0)))
          ∧ ops
            = flat_map
                (fun j =>
                   [Shutdown.OpLoadCount
                      (Shutdown.activeThreads
                         (Shutdown.globals
                            (Shutdown.worker_events
                               (concat (take (S j) sched)) s0)));
                    Shutdown.OpSleep 10])
                (seq 0 k)
              ++ [Shutdown.OpLoadCount
                    (Shutdown.activeThreads (Shutdown.globals s'))]
    | None =>
        ∀ j : nat, (j < length sched)%nat →
          0 < Shutdown.activeThreads
                (Shutdown.globals
                   (Shutdown.worker_events (concat (take (S j) sched)) s0))
    end.
Proof.
  induction sched as [| es sched IH]; intros s0.
  - cbn. intros j Hj. lia.
  - cbn [Shutdown.poll].
    assert (Hall : ∀ j,
              Shutdown.worker_events (concat (take (S (S j)) (es :: sched))) s0
              = Shutdown.worker_events (concat (take (S j) sched))
                  (Shutdown.worker_events es s0)).
    { intros j. cbn [take concat]. apply worker_events_app. }
    assert (H0 : Shutdown.worker_events (concat (take 1 (es :: sched))) s0
                 = Shutdown.worker_events es s0).
    { cbn [take concat]. by rewrite app_nil_r. }
    destruct (0 <? Shutdown.activeThreads
                     (Shutdown.globals (Shutdown.worker_events es s0))) eqn:Hpos.
    + apply Z.ltb_lt in Hpos.
      specialize (IH (Shutdown.worker_events es s0)).
      destruct (Shutdown.poll sched (Shutdown.worker_events es s0))
        as [[s2 ops2] |]; cbn [mbind option_bind].
      * destruct IH as (k & Hk & -> & Hle & Hbefore & ->).
        exists (S k). split; [cbn [length]; lia |].
        split; [by rewrite Hall |]. split; [exact Hle |].
        split.
        { intros [| j] Hj; [by rewrite H0 |]. rewrite Hall. apply Hbefore. lia. }
        cbn [seq flat_map app]. rewrite H0, flat_map_shift.
        do 2 f_equal.
        f_equal. apply flat_map_ext. intros j. by rewrite Hall.
      * intros [| j] Hj; [by rewrite H0 |]. rewrite Hall. apply IH.
        cbn [length] in Hj. lia.
    + apply Z.ltb_ge in Hpos. exists 0%nat.
      split; [cbn [length]; lia |]. split; [by rewrite H0 |].
      split; [exact Hpos |]. split; [intros j Hj; lia | reflexivity].
Qed.

(** C4: the workers (fewer than 2^64 of them) call [threadStart] when their
    hook loop begins and [threadFinish] when it ends, a loop ending only
    after it began.  Then the counter goes up by one at a begin and down by
    one at an end, and at every poll of [effil_shutdown] it is the number of
    workers inside their hook loop.  [effil_shutdown] first stores the flag
    and then only loads the counter and sleeps 10 ms, again and again while
    the count is positive: it returns at the first poll at which no worker
    is inside its hook loop and not before, having written nothing but the
    flag; the process it leaves is the one the workers made of it up to that
    poll, with the flag set and the counter at zero.  It returns exactly
    when the workers have all left their loops at some poll. *)
Theorem shutdown_waits_for_workers (N : nat)
  (sched : list (list Shutdown.WorkerEvent)) (s : Shutdown.Process) :
  Z.of_nat N ≤ Shutdown.SIZE_MAX →
  Shutdown.workers_below N sched = true →
  Shutdown.bracketed (concat sched) (Shutdown.inLoop s) = true →
  Shutdown.consistent N s →
  (∀ wk, (wk < N)%nat → wk ∉ Shutdown.inLoop s →
     Shutdown.activeThreads
       (Shutdown.globals (Shutdown.worker_event (Shutdown.HookLoopBegin wk) s))
     = Shutdown.activeThreads (Shutdown.globals s) + 1)
  ∧ (∀ wk, wk ∈ Shutdown.inLoop s →
       Shutdown.activeThreads
         (Shutdown.globals (Shutdown.worker_event (Shutdown.HookLoopEnd wk) s))
       = Shutdown.activeThreads (Shutdown.globals s) - 1)
  ∧ (∀ k,
       count_at sched s k
       = Z.of_nat
           (size (Shutdown.inLoop
                    (Shutdown.worker_events (concat (take (S k) sched))
                       (flag_stored s)))))
  ∧ (∀ s' ops, Shutdown.effil_shutdown sched s = Some (s', ops) →
       ∃ k : nat,
         (k < length sched)%nat
         ∧ s' = Shutdown.worker_events (concat (take (S k) sched))
                  (flag_stored s)
         ∧ Shutdown.requested (Shutdown.globals s') = true
         ∧ Shutdown.activeThreads (Shutdown.globals s') = 0
         ∧ Shutdown.inLoop s' = ∅
         ∧ (∀ j : nat, (j < k)%nat →
              0 < count_at sched s j
              ∧ Shutdown.inLoop
                  (Shutdown.worker_events (concat (take (S j) sched))
                     (flag_stored s)) ≠ ∅)
         ∧ ops
           = Shutdown.OpStoreFlag
             :: flat_map
                  (fun j => [Shutdown.OpLoadCount (count_at sched s j);
                             Shutdown.OpSleep 10])
                  (seq 0 k)
             ++ [Shutdown.OpLoadCount 0])
  ∧ (is_Some (Shutdown.effil_shutdown sched s)
     ↔ ∃ k : nat,
         (k < length sched)%nat
         ∧ Shutdown.inLoop
             (Shutdown.worker_events (concat (take (S k) sched))
                (flag_stored s)) = ∅).
Proof.
  intros HN Hb Hbr Hc.
  pose proof (λ k, count_at_size N sched s k HN Hb Hbr Hc) as Hcount.
  assert (Hret : ∀ s' ops, Shutdown.effil_shutdown sched s = Some (s', ops) →
            ∃ k : nat,
              (k < length sched)%nat
              ∧ s' = Shutdown.worker_events (concat (take (S k) sched))
                       (flag_stored s)
              ∧ count_at sched s k = 0
              ∧ (∀ j : nat, (j < k)%nat → 0 < count_at sched s j)
              ∧ ops
                = Shutdown.OpStoreFlag
                  :: flat_map
                       (fun j => [Shutdown.OpLoadCount (count_at sched s j);
                                  Shutdown.OpSleep 10])
                       (seq 0 k)
                  ++ [Shutdown.OpLoadCount 0]).
  { intros s' ops He. unfold Shutdown.effil_shutdown in He.
    fold (flag_stored s) in He.
    pose proof (poll_characterised sched (flag_stored s)) as Hp.
    destruct (Shutdown.poll sched (flag_stored s)) as [[s2 ops2] |];
      [| discriminate He].
    cbn in He. injection He as <- <-.
    destruct Hp as (k & Hk & -> & Hle & Hbefore & ->).
    fold (count_at sched s k) in Hle |- *.
    assert (Hz : count_at sched s k = 0) by (rewrite Hcount in Hle |- *; lia).
    exists k. rewrite Hz. repeat split; done. }
  split; [intros wk Hwk Hnot; by apply (threadStart_increments N) |].
  split; [intros wk Hin; by apply (threadFinish_decrements N) |].
  split; [exact Hcount |].
  split.
  - intros s' ops He.
    destruct (Hret s' ops He) as (k & Hk & -> & Hz & Hbefore & ->).
    exists k. split; [exact Hk |]. split; [reflexivity |].
    split; [unfold Shutdown.requested; by rewrite worker_events_flag |].
    split; [exact Hz |].
    split.
    { rewrite Hcount in Hz. apply leibniz_equiv, size_empty_iff. lia. }
    split; [| reflexivity].
    intros j Hj. specialize (Hbefore j Hj). split; [exact Hbefore |].
    intros Hempty. rewrite Hcount, Hempty, size_empty in Hbefore. lia.
  - split.
    + intros [[s' ops] He].
      destruct (Hret s' ops He) as (k & Hk & -> & Hz & _).
      exists k. split; [exact Hk |].
      rewrite Hcount in Hz. apply leibniz_equiv, size_empty_iff. lia.
    + intros (k & Hk & Hempty).
      unfold Shutdown.effil_shutdown. fold (flag_stored s).
      pose proof (poll_characterised sched (flag_stored s)) as Hp.
      destruct (Shutdown.poll sched (flag_stored s)) as [[s2 ops2] |];
        [by eexists |].
      specialize (Hp k Hk). fold (count_at sched s k) in Hp.
      rewrite Hcount, Hempty, size_empty in Hp. lia.
Qed.

Example effil_shutdown_one_worker :
  Shutdown.effil_shutdown leaves_during_sleep one_worker
  = Some (Shutdown.mkProcess (Shutdown.mkGlobals true 0) ∅,
          [Shutdown.OpStoreFlag; Shutdown.OpLoadCount 1; Shutdown.OpSleep 10;
           Shutdown.OpLoadCount 0]).
Proof. vm_compute. reflexivity. Qed.

Lemma shutdown_waits_for_workers_witness :
  Z.of_nat 2 ≤ Shutdown.SIZE_MAX
  ∧ Shutdown.workers_below 2 leaves_during_sleep = true
  ∧ Shutdown.bracketed (concat leaves_during_sleep)
      (Shutdown.inLoop one_worker) = true
  ∧ Shutdown.consistent 2 one_worker
  ∧ (is_Some (Shutdown.effil_shutdown leaves_during_sleep one_worker)
     ↔ ∃ k : nat,
         (k < length leaves_during_sleep)%nat
         ∧ Shutdown.inLoop
             (Shutdown.worker_events (concat (take (S k) leaves_during_sleep))
                (flag_stored one_worker)) = ∅).
Proof.
  assert (H1 : Z.of_nat 2 ≤ Shutdown.SIZE_MAX) by (vm_compute; discriminate).
  assert (H2 : Shutdown.workers_below 2 leaves_during_sleep = true)
    by reflexivity.
  assert (H3 : Shutdown.bracketed (concat leaves_during_sleep)
                 (Shutdown.inLoop one_worker) = true)
    by (vm_compute; reflexivity).
  assert (H4 : Shutdown.consistent 2 one_worker).
  { split; [vm_compute; reflexivity |].
    intros x Hx. cbn in Hx. apply elem_of_singleton in Hx as ->.
    apply elem_of_set_seq. lia. }
  split; [exact H1 |]. split; [exact H2 |]. split; [exact H3 |].
  split; [exact H4 |].
  apply (shutdown_waits_for_workers 2 leaves_during_sleep one_worker
           H1 H2 H3 H4).
Defined.

(** ** Scenarios *)

(** A worker told to pause before its first hook tick pauses there, stays
    paused through a second [Pause] and the passing of time, resumes on
    [Run] and completes with its result. *)
Example pause_resume_completes :
  (Thread.runThread lua51 worker0 ticks_then_42 []
     [LWorker; LPut Pause; LElapse 5; LWorker; LPut Run; LWorker]
     (world_of pause_requested)).1.1 = Normal
  ∧ Thread.status worker0
      (Thread.runThread lua51 worker0 ticks_then_42 []
         [LWorker; LPut Pause; LElapse 5; LWorker; LPut Run; LWorker]
         (world_of pause_requested)).1.2
    = Some [SString "completed"]
  ∧ Thread.get millis worker0 None None
      (Thread.runThread lua51 worker0 ticks_then_42 []
         [LWorker; LPut Pause; LElapse 5; LWorker; LPut Run; LWorker]
         (world_of pause_requested)).1.2
    = Some [SNumber 42].
Proof. repeat split; vm_compute; reflexivity. Qed.

(** Cancelling a paused worker ends in [Canceled], not in [Paused]. *)
Example cancel_while_paused :
  Thread.status worker0
    (Thread.runThread lua53 worker0 ticks_then_42 []
       [LPut Cancel; LWorker] (world_of pause_requested)).1.2
  = Some [SString "canceled"].
Proof. vm_compute. reflexivity. Qed.

(** * Further properties *)

(** ** A relation kept by every action of the worker *)

Lemma store_handle_twice (p : nat) (h1 h2 : ThreadHandle) (w : World) :
  store_handle p h2 (store_handle p h1 w) = store_handle p h2 w.
Proof. unfold store_handle. cbn. f_equal. apply insert_insert_eq. Qed.

Section WorkerRelation.

Variable R : ThreadHandle → Completion → ThreadHandle → Prop.

Hypothesis R_refl : ∀ h, R h Normal h.
Hypothesis R_trans : ∀ h h1 h2 c, R h Normal h1 → R h1 c h2 → R h c h2.
Hypothesis R_hook : ∀ sched h,
  R h (luaHook_handle sched h).1.1 (luaHook_handle sched h).1.2.
Hypothesis R_point : ∀ h,
  R h (interruptionPoint_handle h).1 (interruptionPoint_handle h).2.
Hypothesis R_put : ∀ c h, R h Normal (putCommand c h).
Hypothesis R_set : ∀ n h, R h Normal (setNotifier n h).
Hypothesis R_unset : ∀ h c h2, R h c h2 → R h c (setNotifier None h2).

Lemma run_actions_rel (p : nat) (acts : list Action) :
  Forall (fun a => ∀ sched w h, handles w !! p = Some h →
            ∃ h', (perform p a sched w).1.2 = store_handle p h' w
                  ∧ R h (perform p a sched w).1.1 h') acts →
  ∀ sched w h, handles w !! p = Some h →
    ∃ h', (run_actions (perform p) acts sched w).1.2 = store_handle p h' w
          ∧ R h (run_actions (perform p) acts sched w).1.1 h'.
Proof.
  induction 1 as [| a acts Ha _ IH]; intros sched w h Hw.
  - exists h. split; [symmetry; by apply store_handle_same | apply R_refl].
  - rewrite run_actions_cons.
    destruct (Ha sched w h Hw) as (h1 & Hw1 & Hr1).
    destruct (perform p a sched w) as [[c w1] sched1]. cbn in Hw1, Hr1.
    destruct c; try (exists h1; by split).
    subst w1.
    destruct (IH sched1 (store_handle p h1 w) h1 (store_handle_lookup _ _ _))
      as (h2 & Hw2 & Hr2).
    exists h2. rewrite Hw2, store_handle_twice. split; [reflexivity |].
    by apply (R_trans h h1 h2).
Qed.

Lemma perform_rel (p : nat) (a : Action) :
  ∀ sched w h, handles w !! p = Some h →
    ∃ h', (perform p a sched w).1.2 = store_handle p h' w
          ∧ R h (perform p a sched w).1.1 h'.
Proof.
  induction a as [| | | n inner IH | c] using Action_nested_ind;
    intros sched w h Hw.
  - cbn [perform]. unfold luaHook. rewrite Hw.
    pose proof (R_hook sched h) as Hr.
    destruct (luaHook_handle sched h) as [[c h'] sched']. cbn in *.
    by exists h'.
  - cbn [perform]. unfold yield, luaHook. rewrite Hw.
    pose proof (R_hook sched h) as Hr.
    destruct (luaHook_handle sched h) as [[c h'] sched']. cbn in *.
    by exists h'.
  - cbn [perform]. unfold interruptionPoint. rewrite Hw.
    pose proof (R_point h) as Hr.
    destruct (interruptionPoint_handle h) as [c h']. cbn in *.
    by exists h'.
  - cbn [perform]. unfold ScopedSetInterruptable_ctor. rewrite Hw.
    destruct (run_actions_rel p inner IH sched
                (store_handle p (setNotifier (Some n) h) w)
                (setNotifier (Some n) h) (store_handle_lookup _ _ _))
      as (h2 & Hw2 & Hr2).
    destruct (run_actions (perform p) inner sched _) as [[c w2] sched2].
    cbn in Hw2, Hr2. rewrite store_handle_twice in Hw2. subst w2.
    assert (Hr : R h c h2).
    { apply (R_trans h (setNotifier (Some n) h) h2); [apply R_set | exact Hr2]. }
    destruct c as [| e | |].
    + unfold ScopedSetInterruptable_dtor. rewrite store_handle_lookup. cbn.
      exists (setNotifier None h2). rewrite store_handle_twice.
      split; [reflexivity |]. by apply R_unset.
    + unfold ScopedSetInterruptable_dtor. rewrite store_handle_lookup. cbn.
      exists (setNotifier None h2). rewrite store_handle_twice.
      split; [reflexivity |]. by apply R_unset.
    + cbn. by exists h2.
    + cbn. by exists h2.
  - cbn [perform]. rewrite (on_handle_store p _ h w Hw). cbn.
    exists (putCommand c h). split; [reflexivity | apply R_put].
Qed.

Lemma run_body_rel (p : nat) (acts : list Action) :
  ∀ sched w h, handles w !! p = Some h →
    ∃ h', (run_body p acts sched w).1.2 = store_handle p h' w
          ∧ R h (run_body p acts sched w).1.1 h'.
Proof.
  apply run_actions_rel, Forall_forall. intros a _. apply perform_rel.
Qed.

End WorkerRelation.

(** ** Members that the state machine leaves alone *)

Lemma putCommand_frame (cmd : Command) (h : ThreadHandle) :
  refs_ (putCommand cmd h) = refs_ h
  ∧ lua_ (putCommand cmd h) = lua_ h
  ∧ completionNotifier_ (putCommand cmd h) = completionNotifier_ h.
Proof. unfold putCommand. destruct (isFinishStatus (status_ h)); done. Qed.

Lemma changeStatus_frame (stat : Status) (h : ThreadHandle) :
  refs_ (changeStatus stat h) = refs_ h ∧ lua_ (changeStatus stat h) = lua_ h.
Proof. unfold changeStatus. destruct (isFinishStatus stat); done. Qed.

Lemma changeStatus_completion (stat : Status) (h : ThreadHandle) :
  completionNotifier_ (changeStatus stat h)
  = if isFinishStatus stat then Notifier.mk true else completionNotifier_ h.
Proof. unfold changeStatus. destruct (isFinishStatus stat); done. Qed.

(** A property of handles that [putCommand] and [changeStatus] keep is kept
    by the pause loop, the hook and an interruption point. *)
Lemma pauseLoop_inv (P : ThreadHandle → Prop) :
  (∀ c h, P h → P (putCommand c h)) →
  (∀ st h, P h → P (changeStatus st h)) →
  ∀ sched h, P h → P (pauseLoop sched h).1.2.
Proof.
  intros Hput Hst. induction sched as [| l sched IH]; intros h Hh; cbn.
  - exact Hh.
  - destruct l as [| c | ms].
    + destruct (waitForCommandChange NO_TIMEOUT h) as [cmd |]; [| by apply IH].
      destruct cmd; repeat (case_bool_decide; try congruence); cbn; auto.
    + apply IH. by apply Hput.
    + by apply IH.
Qed.

Lemma luaHook_handle_inv (P : ThreadHandle → Prop) :
  (∀ c h, P h → P (putCommand c h)) →
  (∀ st h, P h → P (changeStatus st h)) →
  ∀ sched h, P h → P (luaHook_handle sched h).1.2.
Proof.
  intros Hput Hst sched h Hh. unfold luaHook_handle.
  destruct (command_ h); cbn; auto.
  apply pauseLoop_inv; auto.
Qed.

Lemma interruptionPoint_handle_inv (P : ThreadHandle → Prop) :
  (∀ st h, P h → P (changeStatus st h)) →
  ∀ h, P h → P (interruptionPoint_handle h).2.
Proof.
  intros Hst h Hh. unfold interruptionPoint_handle.
  case_bool_decide; cbn; auto.
Qed.

Lemma run_body_inv (P : ThreadHandle → Prop) :
  (∀ c h, P h → P (putCommand c h)) →
  (∀ st h, P h → P (changeStatus st h)) →
  (∀ n h, P h → P (setNotifier n h)) →
  ∀ p acts sched w h, handles w !! p = Some h → P h →
    ∃ h', (run_body p acts sched w).1.2 = store_handle p h' w ∧ P h'.
Proof.
  intros Hput Hst Hset p acts sched w h Hw Hh.
  destruct (run_body_rel (fun h _ h' => P h → P h')
              (fun h0 H => H)
              (fun h0 h1 h2 c H1 H2 H => H2 (H1 H))
              (fun sched0 h0 => luaHook_handle_inv P Hput Hst sched0 h0)
              (fun h0 => interruptionPoint_handle_inv P Hst h0)
              (fun c h0 H => Hput c h0 H)
              (fun n h0 H => Hset n h0 H)
              (fun h0 c h2 H H0 => Hset None h2 (H H0))
              p acts sched w h Hw) as (h' & Hw' & Hp).
  exists h'. auto.
Qed.

Lemma body_frame_refl (h : ThreadHandle) : body_frame h h.
Proof. by unfold body_frame. Qed.

Lemma body_frame_putCommand (h0 : ThreadHandle) (c : Command) (h : ThreadHandle) :
  body_frame h0 h → body_frame h0 (putCommand c h).
Proof.
  unfold body_frame. intros (E1 & E2 & E3).
  destruct (putCommand_frame c h) as (F2 & F3 & _).
  rewrite putCommand_result. repeat split; congruence.
Qed.

Lemma body_frame_changeStatus (h0 : ThreadHandle) (st : Status) (h : ThreadHandle) :
  body_frame h0 h → body_frame h0 (changeStatus st h).
Proof.
  unfold body_frame. intros (E1 & E2 & E3).
  destruct (changeStatus_frame st h) as (F2 & F3).
  rewrite changeStatus_result. repeat split; congruence.
Qed.

Lemma luaHook_handle_status (sched : list Label) (h : ThreadHandle) :
  status_ h = Running →
  status_matches (luaHook_handle sched h).1.1 (luaHook_handle sched h).1.2.
Proof.
  intros Hs. unfold luaHook_handle. destruct (command_ h); cbn.
  - exact Hs.
  - split; [reflexivity | apply changeStatus_status].
  - pose proof (pauseLoop_exit sched (changeStatus Paused h)
                  (changeStatus_status Paused h)) as H.
    destruct (pauseLoop sched (changeStatus Paused h)) as [[c h'] rest].
    destruct c; cbn; intuition.
Qed.

(** The end of [runThread], given how the user function's actions
    completed. *)
Lemma runThread_eq (cfg : Interpreter) (thread : Thread.t)
  (function : Function) (arguments : StoredArray) (sched : list Label)
  (w : World) (h : ThreadHandle) (c : Completion) (h1 : ThreadHandle)
  (sched1 : list Label) :
  handles w !! Thread.ctx_ thread = Some h →
  run_body (Thread.ctx_ thread) (body (function arguments)) sched w
  = (c, store_handle (Thread.ctx_ thread) h1 w, sched1) →
  Thread.runThread cfg thread function arguments sched w
  = ((runThread_handle
        (call_result cfg (finish (function arguments)) c h1).1
        (call_result cfg (finish (function arguments)) c h1).2).1,
     store_handle (Thread.ctx_ thread)
       (runThread_handle
          (call_result cfg (finish (function arguments)) c h1).1
          (call_result cfg (finish (function arguments)) c h1).2).2 w,
     sched1).
Proof.
  intros Hw Hb. unfold Thread.runThread. rewrite Hw. cbn zeta.
  unfold call_function. rewrite Hb. unfold call_result.
  destruct c as [| e | |].
  - destruct (finish (function arguments)) as [vals | what tb].
    + rewrite store_handle_lookup.
      destruct (runThread_handle _ _) as [c' h']. cbn.
      by rewrite store_handle_twice.
    + destruct (handler_installed cfg).
      * rewrite (luaErrorHandler_store _ _ _ h1 (store_handle_lookup _ _ _)).
        rewrite store_handle_twice, store_handle_lookup.
        destruct (runThread_handle _ _) as [c' h']. cbn.
        by rewrite store_handle_twice.
      * rewrite store_handle_lookup.
        destruct (runThread_handle _ _) as [c' h']. cbn.
        by rewrite store_handle_twice.
  - destruct (catches_foreign cfg); rewrite store_handle_lookup;
      destruct (runThread_handle _ _) as [c' h']; cbn;
      by rewrite store_handle_twice.
  - rewrite store_handle_lookup.
    destruct (runThread_handle _ _) as [c' h']. cbn.
    by rewrite store_handle_twice.
  - rewrite store_handle_lookup.
    destruct (runThread_handle _ _) as [c' h']. cbn.
    by rewrite store_handle_twice.
Qed.

(** The world after [runThread] is the world before with the worker's own
    handle replaced. *)
Lemma runThread_store (cfg : Interpreter) (thread : Thread.t)
  (function : Function) (arguments : StoredArray) (sched : list Label)
  (w : World) (h : ThreadHandle) :
  handles w !! Thread.ctx_ thread = Some h →
  ∃ c h1 sched1,
    run_body (Thread.ctx_ thread) (body (function arguments)) sched w
    = (c, store_handle (Thread.ctx_ thread) h1 w, sched1)
    ∧ step_ok h c h1.
Proof.
  intros Hw.
  destruct (run_body_rel (fun _ _ _ => True)
              (fun _ => I) (fun _ _ _ _ _ _ => I) (fun _ _ => I) (fun _ => I)
              (fun _ _ => I) (fun _ _ => I) (fun _ _ _ _ => I)
              (Thread.ctx_ thread) (body (function arguments)) sched w h Hw)
    as (h1 & Hw1 & _).
  destruct (run_body_ok _ (body (function arguments)) sched w h Hw)
    as (h1' & Hl & Hok).
  rewrite Hw1, store_handle_lookup in Hl. injection Hl as <-.
  destruct (run_body _ _ sched w) as [[c w1] sched1]. cbn in *.
  exists c, h1, sched1. by subst w1.
Qed.

(** ** X1 *)

(** X1: [statusToString] gives different names to different statuses, and
    none of them is the fallback "unknown". *)
Theorem statusToString_injective (s1 s2 : Status) :
  (statusToString s1 = statusToString s2 ↔ s1 = s2)
  ∧ statusToString s1 ≠ "unknown".
Proof.
  split; [split |].
  - destruct s1, s2; cbn; intros H; try reflexivity; discriminate H.
  - by intros ->.
  - destruct s1; cbn; discriminate.
Qed.

(** ** X2 *)

Lemma call_result_escaped (cfg : Interpreter) (fin : Finish) (c : Completion)
  (h : ThreadHandle) :
  (call_result cfg fin c h).1 ≠ Escaped Normal.
Proof.
  unfold call_result. destruct c as [| e | |]; cbn; try discriminate.
  - destruct fin; cbn; discriminate.
  - destruct (catches_foreign cfg); cbn; discriminate.
Qed.

Lemma runThread_handle_status_head (r : CallResult) (h : ThreadHandle) :
  r ≠ Escaped Normal →
  (runThread_handle r h).1 = Normal →
  isFinishStatus (status_ (runThread_handle r h).2) = true
  ∧ lua_ (runThread_handle r h).2 = false
  ∧ ∃ rest, Thread.status_handle (runThread_handle r h).2
            = Some (SString (statusToString (status_ (runThread_handle r h).2))
                    :: rest).
Proof.
  unfold runThread_handle, after_call.
  destruct r as [vals | what | c].
  - cbn. intros _ _. rewrite changeStatus_status.
    destruct (changeStatus_frame Completed
                (destroyLua (fold_left store_return vals h))) as [_ ->].
    split; [reflexivity |]. split; [reflexivity |].
    unfold Thread.status_handle. rewrite changeStatus_status. cbn. by eexists.
  - case_bool_decide as Hc; cbn; intros _ _.
    + rewrite Hc. split; [reflexivity |]. split; [reflexivity |].
      unfold Thread.status_handle. cbn. rewrite Hc. cbn. by eexists.
    + split; [reflexivity |]. split; [reflexivity |].
      unfold Thread.status_handle. cbn. by eexists.
  - destruct c as [| e | |]; cbn; intros Hne Hc;
      try discriminate Hc; try congruence.
    destruct e as [| what]; cbn.
    + split; [reflexivity |]. split; [reflexivity |].
      unfold Thread.status_handle. cbn. by eexists.
    + split; [reflexivity |]. split; [reflexivity |].
      unfold Thread.status_handle. cbn. by eexists.
Qed.

(** X2: whenever [runThread] has returned, the worker's status is terminal,
    its interpreter is destroyed, and [status()] is a non-empty list whose
    first element is the lowercase name of that status; for a failed worker
    that element is the marker put in front of the result list. *)
Theorem status_starts_with_name (cfg : Interpreter) (thread : Thread.t)
  (function : Function) (arguments : StoredArray) (sched : list Label)
  (w w' : World) (sched' : list Label) :
  Thread.runThread cfg thread function arguments sched w = (Normal, w', sched') →
  ∃ h' rest,
    handles w' !! Thread.ctx_ thread = Some h'
    ∧ isFinishStatus (status_ h') = true
    ∧ lua_ h' = false
    ∧ Thread.status thread w'
      = Some (SString (statusToString (status_ h')) :: rest).
Proof.
  intros Hrun.
  destruct (handles w !! Thread.ctx_ thread) as [h |] eqn:Hw.
  - destruct (runThread_store cfg thread function arguments sched w h Hw)
      as (c & h1 & sched1 & Hb & _).
    rewrite (runThread_eq cfg thread function arguments sched w h c h1 sched1 Hw Hb)
      in Hrun.
    injection Hrun as Hc <- <-.
    destruct (runThread_handle_status_head _ _ (call_result_escaped _ _ _ _) Hc)
      as (Hf & Hl & rest & Hst).
    eexists _, rest. split; [apply store_handle_lookup |].
    split; [exact Hf |]. split; [exact Hl |].
    unfold Thread.status. rewrite store_handle_lookup. cbn. by rewrite Hst.
  - unfold Thread.runThread in Hrun. rewrite Hw in Hrun. discriminate Hrun.
Qed.

Lemma status_starts_with_name_witness :
  Thread.runThread lua53 worker0 raises_boom [] [] (world_of ThreadHandle_new)
  = (Normal,
     (Thread.runThread lua53 worker0 raises_boom [] [] (world_of ThreadHandle_new)).1.2,
     [])
  ∧ ∃ h' rest,
      handles (Thread.runThread lua53 worker0 raises_boom [] []
                 (world_of ThreadHandle_new)).1.2 !! Thread.ctx_ worker0 = Some h'
      ∧ isFinishStatus (status_ h') = true
      ∧ lua_ h' = false
      ∧ Thread.status worker0
          (Thread.runThread lua53 worker0 raises_boom [] []
             (world_of ThreadHandle_new)).1.2
        = Some (SString (statusToString (status_ h')) :: rest).
Proof.
  split; [vm_compute; reflexivity |].
  apply (status_starts_with_name lua53 worker0 raises_boom [] []
           (world_of ThreadHandle_new) _ []).
  vm_compute. reflexivity.
Defined.

(** ** X3 *)

(** X3: [runThread] changes nothing in the store but the worker's own
    handle: every other handle and every notifier of a library call is as
    before, also when the worker is cancelled, fails or stays paused. *)
Theorem runThread_touches_own_handle_only (cfg : Interpreter)
  (thread : Thread.t) (function : Function) (arguments : StoredArray)
  (sched : list Label) (w : World) :
  notifiers (Thread.runThread cfg thread function arguments sched w).1.2
  = notifiers w
  ∧ ∀ q, q ≠ Thread.ctx_ thread →
      handles (Thread.runThread cfg thread function arguments sched w).1.2 !! q
      = handles w !! q.
Proof.
  destruct (handles w !! Thread.ctx_ thread) as [h |] eqn:Hw.
  - destruct (runThread_store cfg thread function arguments sched w h Hw)
      as (c & h1 & sched1 & Hb & _).
    rewrite (runThread_eq cfg thread function arguments sched w h c h1 sched1 Hw Hb).
    cbn. split; [reflexivity |].
    intros q Hq. by rewrite lookup_insert_ne.
  - unfold Thread.runThread. rewrite Hw. by cbn.
Qed.

(** ** X4 *)

Lemma body_status_rel (p : nat) (acts : list Action) (sched : list Label)
  (w : World) (h : ThreadHandle) :
  handles w !! p = Some h →
  ∃ h', (run_body p acts sched w).1.2 = store_handle p h' w
        ∧ body_frame h h'
        ∧ (status_ h = Running → status_matches (run_body p acts sched w).1.1 h').
Proof.
  intros Hw.
  apply (run_body_rel
           (fun h c h' => body_frame h h'
                          ∧ (status_ h = Running → status_matches c h')));
    [ | | | | | | | exact Hw].
  - intros h0. split; [apply body_frame_refl | done].
  - intros h0 h1 h2 c [F1 S1] [F2 S2]. split.
    + unfold body_frame in *. intuition congruence.
    + intros H0. apply S2. exact (S1 H0).
  - intros sched0 h0. split.
    + apply (luaHook_handle_inv (body_frame h0)).
      * apply body_frame_putCommand.
      * apply body_frame_changeStatus.
      * apply body_frame_refl.
    + apply luaHook_handle_status.
  - intros h0. split.
    + apply (interruptionPoint_handle_inv (body_frame h0)).
      * apply body_frame_changeStatus.
      * apply body_frame_refl.
    + intros H0. unfold interruptionPoint_handle.
      case_bool_decide; cbn; [| exact H0].
      split; [reflexivity | apply changeStatus_status].
  - intros c h0. split.
    + apply body_frame_putCommand, body_frame_refl.
    + intros H0. cbn. by rewrite putCommand_status.
  - intros n h0. split; [by unfold body_frame | done].
  - intros h0 c h2 [F S]. split; [exact F |].
    intros H0. specialize (S H0). by destruct c.
Qed.

(** X4: while the user function of a worker that started [Running] is
    executing, the status tells where the worker is: [Running] when its
    actions completed, [Paused] when it is blocked in the hook, [Canceled]
    when the stop exception is unwinding.  It is never [Completed] or
    [Failed] there, no assert fails, and the result list, the registered
    references and the interpreter are untouched. *)
Theorem status_follows_worker (p : nat) (acts : list Action)
  (sched : list Label) (w : World) (h : ThreadHandle) :
  handles w !! p = Some h →
  status_ h = Running →
  ∃ h', (run_body p acts sched w).1.2 = store_handle p h' w
        ∧ match (run_body p acts sched w).1.1 with
          | Normal => status_ h' = Running
          | Throw e => e = LuaHookStopException ∧ status_ h' = Canceled
          | Blocked => status_ h' = Paused
          | Abort => False
          end
        ∧ status_ h' ≠ Completed ∧ status_ h' ≠ Failed
        ∧ result_ h' = result_ h ∧ refs_ h' = refs_ h ∧ lua_ h' = lua_ h.
Proof.
  intros Hw Hs.
  destruct (body_status_rel p acts sched w h Hw) as (h' & Hw' & (R & F & L) & Hm).
  specialize (Hm Hs). exists h'.
  split; [exact Hw' |]. split; [exact Hm |].
  unfold status_matches in Hm.
  destruct ((run_body p acts sched w).1.1);
    repeat split; try done; intuition congruence.
Qed.

Lemma status_follows_worker_witness :
  handles (world_of ThreadHandle_new) !! 0%nat = Some ThreadHandle_new
  ∧ status_ ThreadHandle_new = Running
  ∧ ∃ h', (run_body 0 (body (cancelled_in_call [])) []
             (world_of ThreadHandle_new)).1.2
          = store_handle 0 h' (world_of ThreadHandle_new)
          ∧ match (run_body 0 (body (cancelled_in_call [])) []
                     (world_of ThreadHandle_new)).1.1 with
            | Normal => status_ h' = Running
            | Throw e => e = LuaHookStopException ∧ status_ h' = Canceled
            | Blocked => status_ h' = Paused
            | Abort => False
            end
          ∧ status_ h' ≠ Completed ∧ status_ h' ≠ Failed
          ∧ result_ h' = result_ ThreadHandle_new
          ∧ refs_ h' = refs_ ThreadHandle_new
          ∧ lua_ h' = lua_ ThreadHandle_new.
Proof.
  split; [reflexivity |]. split; [reflexivity |].
  apply (status_follows_worker 0 (body (cancelled_in_call [])) []
           (world_of ThreadHandle_new) ThreadHandle_new); reflexivity.
Defined.

(** ** X5 *)

Lemma store_return_fields (v : LuaObject) (h : ThreadHandle) :
  result_ (store_return h v) = result_ h ++ [stored_result v]
  ∧ refs_ (store_return h v)
    = refs_ h ++ from_option (fun g => [g]) [] (gcHandle (createStoredObject v))
  ∧ status_ (store_return h v) = status_ h
  ∧ completionNotifier_ (store_return h v) = completionNotifier_ h.
Proof.
  unfold store_return, stored_result.
  destruct v; cbn; rewrite ?app_nil_r; done.
Qed.

Lemma store_returns_fields (vals : list LuaObject) : ∀ h : ThreadHandle,
  result_ (fold_left store_return vals h)
  = result_ h ++ (stored_result <$> vals)
  ∧ refs_ (fold_left store_return vals h)
    = refs_ h ++ omap (fun v => gcHandle (createStoredObject v)) vals
  ∧ status_ (fold_left store_return vals h) = status_ h
  ∧ completionNotifier_ (fold_left store_return vals h) = completionNotifier_ h.
Proof.
  induction vals as [| v vals IH]; intros h; cbn [fold_left].
  - cbn. by rewrite !app_nil_r.
  - destruct (IH (store_return h v)) as (R & F & S & C).
    destruct (store_return_fields v h) as (R1 & F1 & S1 & C1).
    rewrite R, F, S, C, R1, F1, S1, C1. rewrite <- !app_assoc.
    repeat split. cbn [omap]. f_equal.
    destruct v; reflexivity.
Qed.

(** X5: when the user function returns, [runThread] ends with status
    [Completed] and has appended the stored form of every return value to
    the result list, in the order of the values; for every composite among
    them it has registered a reference against the worker's handle, in the
    same order, and the stored composite no longer owns a strong reference.
    [get] then returns that list for any duration. *)
Theorem returned_values_stored_in_order (cfg : Interpreter) (thread : Thread.t)
  (function : Function) (arguments : StoredArray) (sched : list Label)
  (w : World) (h : ThreadHandle) (vals : list LuaObject)
  (w1 : World) (sched1 : list Label)
  (fromLuaTime : Z → option string → Z) (duration : option Z)
  (period : option string) :
  handles w !! Thread.ctx_ thread = Some h →
  finish (function arguments) = Return vals →
  run_body (Thread.ctx_ thread) (body (function arguments)) sched w
  = (Normal, w1, sched1) →
  ∃ w' h',
    Thread.runThread cfg thread function arguments sched w = (Normal, w', sched1)
    ∧ handles w' !! Thread.ctx_ thread = Some h'
    ∧ status_ h' = Completed
    ∧ result_ h' = result_ h ++ (stored_result <$> vals)
    ∧ refs_ h'
      = refs_ h ++ omap (fun v => gcHandle (createStoredObject v)) vals
    ∧ Forall (fun o => ∀ g, o ≠ SComposite g true) (stored_result <$> vals)
    ∧ Thread.get fromLuaTime thread duration period w'
      = Some (result_ h ++ (stored_result <$> vals)).
Proof.
  intros Hw Hf Hb.
  destruct (body_status_rel _ (body (function arguments)) sched w h Hw)
    as (h1 & Hw1 & (R & F & L) & _).
  rewrite Hb in Hw1. cbn in Hw1. subst w1.
  rewrite (runThread_eq cfg thread function arguments sched w h Normal h1 sched1
             Hw Hb).
  rewrite Hf. unfold call_result, runThread_handle, after_call. cbn.
  destruct (store_returns_fields vals h1) as (R2 & F2 & _).
  eexists _, _. split; [reflexivity |].
  split; [apply store_handle_lookup |].
  split; [apply changeStatus_status |].
  rewrite changeStatus_result.
  destruct (changeStatus_frame Completed
              (destroyLua (fold_left store_return vals h1))) as [-> _].
  cbn. rewrite R2, F2, R, F.
  split; [reflexivity |]. split; [reflexivity |].
  split.
  - apply Forall_fmap, Forall_forall. intros v _ g. cbn.
    unfold stored_result. destruct v; discriminate.
  - unfold Thread.get. rewrite store_handle_lookup. cbn.
    unfold waitForCompletion, Notifier.waitFor.
    rewrite changeStatus_completion. cbn.
    rewrite changeStatus_status, changeStatus_result. cbn.
    by rewrite R2, R.
Qed.

Lemma returned_values_stored_in_order_witness :
  handles (world_of ThreadHandle_new) !! Thread.ctx_ worker0 = Some ThreadHandle_new
  ∧ finish (ticks_then_42 []) = Return [LNumber 42]
  ∧ run_body (Thread.ctx_ worker0) (body (ticks_then_42 [])) []
      (world_of ThreadHandle_new) = (Normal, world_of ThreadHandle_new, [])
  ∧ ∃ w' h',
      Thread.runThread lua51 worker0 ticks_then_42 [] [] (world_of ThreadHandle_new)
      = (Normal, w', [])
      ∧ handles w' !! Thread.ctx_ worker0 = Some h'
      ∧ status_ h' = Completed
      ∧ result_ h' = [SNumber 42]
      ∧ refs_ h' = []
      ∧ Forall (fun o => ∀ g, o ≠ SComposite g true) [SNumber 42]
      ∧ Thread.get millis worker0 None None w' = Some [SNumber 42].
Proof.
  split; [reflexivity |]. split; [reflexivity |].
  split; [vm_compute; reflexivity |].
  apply (returned_values_stored_in_order lua51 worker0 ticks_then_42 [] []
           (world_of ThreadHandle_new) ThreadHandle_new [LNumber 42]
           (world_of ThreadHandle_new) [] millis None None);
    [reflexivity | reflexivity | vm_compute; reflexivity].
Defined.

(** ** X6 *)

Lemma completed_when_finished_putCommand (c : Command) (h : ThreadHandle) :
  completed_when_finished h → completed_when_finished (putCommand c h).
Proof.
  unfold completed_when_finished. intros H. rewrite putCommand_status.
  intros Hf. rewrite (putCommand_terminal c h Hf). by apply H.
Qed.

Lemma completed_when_finished_changeStatus (st : Status) (h : ThreadHandle) :
  completed_when_finished (changeStatus st h).
Proof.
  unfold completed_when_finished, notified. cbn.
  rewrite changeStatus_status, changeStatus_completion.
  by intros ->.
Qed.

Lemma runThread_handle_completion (r : CallResult) (h : ThreadHandle) :
  r ≠ Escaped Normal →
  completed_when_finished h →
  (runThread_handle r h).1 = Normal →
  notified CompletionNotifier (runThread_handle r h).2 = true.
Proof.
  unfold runThread_handle, after_call, notified. cbn [getNotifier].
  destruct r as [vals | what | c].
  - cbn. intros _ _ _. by rewrite changeStatus_completion.
  - case_bool_decide as Hc; cbn; intros _ Hinv _.
    + apply Hinv. by rewrite Hc.
    + by rewrite changeStatus_completion.
  - destruct c as [| e | |]; cbn; intros Hne Hinv Hc;
      try discriminate Hc; try congruence.
    destruct e as [| what]; cbn; by rewrite changeStatus_completion.
Qed.

(** X6: once [runThread] has returned for a worker that was started
    unfinished, the completion notifier is latched, so [wait] and [get]
    return at once for any duration, also for none: [wait] gives what
    [status()] gives, and [get] gives the result list when the status is
    [Completed] and the empty list when the worker failed or was
    cancelled. *)
Theorem wait_and_get_after_return (cfg : Interpreter) (thread : Thread.t)
  (function : Function) (arguments : StoredArray) (sched : list Label)
  (w : World) (h : ThreadHandle) (w' : World) (sched' : list Label)
  (fromLuaTime : Z → option string → Z) (duration : option Z)
  (period : option string) :
  handles w !! Thread.ctx_ thread = Some h →
  isFinishStatus (status_ h) = false →
  Thread.runThread cfg thread function arguments sched w = (Normal, w', sched') →
  ∃ h', handles w' !! Thread.ctx_ thread = Some h'
        ∧ notified CompletionNotifier h' = true
        ∧ Thread.wait fromLuaTime thread duration period w'
          = Thread.status thread w'
        ∧ Thread.get fromLuaTime thread duration period w'
          = Some (if bool_decide (status_ h' = Completed) then result_ h' else []).
Proof.
  intros Hw Hnf Hrun.
  destruct (run_body_inv completed_when_finished
              completed_when_finished_putCommand
              (fun st h0 _ => completed_when_finished_changeStatus st h0)
              (fun n h0 H => H)
              (Thread.ctx_ thread) (body (function arguments)) sched w h Hw)
    as (h1 & Hw1 & Hinv1).
  { unfold completed_when_finished. by rewrite Hnf. }
  destruct (run_body _ _ sched w) as [[c w1] sched1] eqn:Hb. cbn in Hw1.
  subst w1.
  rewrite (runThread_eq cfg thread function arguments sched w h c h1 sched1 Hw Hb)
    in Hrun.
  injection Hrun as Hc <- <-.
  assert (Hinv2 : completed_when_finished
                    (call_result cfg (finish (function arguments)) c h1).2).
  { unfold call_result. destruct c as [| e | |]; cbn; try exact Hinv1.
    - destruct (finish (function arguments)); cbn; [exact Hinv1 |].
      destruct (handler_installed cfg); exact Hinv1.
    - destruct (catches_foreign cfg); exact Hinv1. }
  pose proof (runThread_handle_completion _ _ (call_result_escaped _ _ _ _)
                Hinv2 Hc) as Hn.
  eexists. split; [apply store_handle_lookup |].
  split; [exact Hn |].
  unfold Thread.wait, Thread.get, Thread.status, waitForCompletion,
    Notifier.waitFor.
  rewrite store_handle_lookup. cbn.
  unfold notified in Hn. cbn in Hn. rewrite Hn. cbn. done.
Qed.

Lemma wait_and_get_after_return_witness :
  handles (world_of ThreadHandle_new) !! Thread.ctx_ worker0 = Some ThreadHandle_new
  ∧ isFinishStatus (status_ ThreadHandle_new) = false
  ∧ ∃ h', handles (Thread.runThread lua53 worker0 raises_boom [] []
                     (world_of ThreadHandle_new)).1.2 !! Thread.ctx_ worker0
          = Some h'
          ∧ notified CompletionNotifier h' = true
          ∧ Thread.wait millis worker0 None None
              (Thread.runThread lua53 worker0 raises_boom [] []
                 (world_of ThreadHandle_new)).1.2
            = Thread.status worker0
                (Thread.runThread lua53 worker0 raises_boom [] []
                   (world_of ThreadHandle_new)).1.2
          ∧ Thread.get millis worker0 None None
              (Thread.runThread lua53 worker0 raises_boom [] []
                 (world_of ThreadHandle_new)).1.2
            = Some (if bool_decide (status_ h' = Completed) then result_ h'
                    else []).
Proof.
  split; [reflexivity |]. split; [reflexivity |].
  apply (wait_and_get_after_return lua53 worker0 raises_boom [] []
           (world_of ThreadHandle_new) ThreadHandle_new _ [] millis None None);
    [reflexivity | reflexivity | vm_compute; reflexivity].
Defined.

(** ** X7 *)

Lemma pauseLoop_completion (sched : list Label) :
  ∀ h, (∀ e, (pauseLoop sched h).1.1 ≠ Throw e) →
       completionNotifier_ (pauseLoop sched h).1.2 = completionNotifier_ h.
Proof.
  induction sched as [| l sched IH]; intros h Hc; [reflexivity |].
  destruct l as [| c | ms]; cbn [pauseLoop] in *.
  - destruct (waitForCommandChange NO_TIMEOUT h) as [cmd |]; [| by apply IH].
    destruct cmd; repeat (case_bool_decide; try congruence); cbn in *.
    + by rewrite changeStatus_completion.
    + by destruct (Hc LuaHookStopException).
    + by apply IH.
  - rewrite (IH _ Hc). apply putCommand_frame.
  - by apply IH.
Qed.

Lemma body_completion_rel (p : nat) (acts : list Action) (sched : list Label)
  (w : World) (h : ThreadHandle) :
  handles w !! p = Some h →
  ∃ h', (run_body p acts sched w).1.2 = store_handle p h' w
        ∧ ((∀ e, (run_body p acts sched w).1.1 ≠ Throw e) →
           completionNotifier_ h' = completionNotifier_ h).
Proof.
  intros Hw.
  apply (run_body_rel
           (fun h c h' => (∀ e, c ≠ Throw e) →
                          completionNotifier_ h' = completionNotifier_ h));
    [ | | | | | | | exact Hw].
  - done.
  - intros h0 h1 h2 c H1 H2 Hc. rewrite (H2 Hc). apply H1. discriminate.
  - intros sched0 h0 Hc. unfold luaHook_handle in *.
    destruct (command_ h0); cbn in *.
    + reflexivity.
    + by destruct (Hc LuaHookStopException).
    + rewrite (pauseLoop_completion _ _ Hc). by rewrite changeStatus_completion.
  - intros h0 Hc. unfold interruptionPoint_handle in *.
    case_bool_decide; cbn in *; [| reflexivity].
    by destruct (Hc LuaHookStopException).
  - intros c h0 _. apply putCommand_frame.
  - done.
  - intros h0 c h2 H Hc. exact (H Hc).
Qed.

(** X7: while a worker that started [Running] is blocked in the hook's
    pause loop, [runThread] has not returned: the status is [Paused], the
    interpreter is alive, and the result list and the completion notifier
    are as they were.  [status()] reports "paused"; when the completion
    notifier was not notified before, [wait] with a duration reports
    "paused" as well and [get] with a duration returns the empty list. *)
Theorem paused_worker_is_observed (fromLuaTime : Z → option string → Z)
  (cfg : Interpreter) (thread : Thread.t)
  (function : Function) (arguments : StoredArray) (sched : list Label)
  (w : World) (h : ThreadHandle) (w' : World) (sched' : list Label) :
  handles w !! Thread.ctx_ thread = Some h →
  status_ h = Running →
  Thread.runThread cfg thread function arguments sched w = (Blocked, w', sched') →
  ∃ h', handles w' !! Thread.ctx_ thread = Some h'
        ∧ status_ h' = Paused
        ∧ lua_ h' = lua_ h
        ∧ result_ h' = result_ h
        ∧ completionNotifier_ h' = completionNotifier_ h
        ∧ Thread.status thread w' = Some [SString "paused"]
        ∧ (notified CompletionNotifier h = false →
           ∀ (d : Z) (period : option string),
             Thread.wait fromLuaTime thread (Some d) period w'
             = Some [SString "paused"]
             ∧ Thread.get fromLuaTime thread (Some d) period w' = Some []).
Proof.
  intros Hw Hs Hrun.
  destruct (body_status_rel _ (body (function arguments)) sched w h Hw)
    as (h1 & Hw1 & (R & F & L) & Hm).
  destruct (body_completion_rel _ (body (function arguments)) sched w h Hw)
    as (h1' & Hw1' & Hcn).
  assert (h1' = h1) as ->.
  { apply (f_equal (fun w => handles w !! Thread.ctx_ thread)) in Hw1.
    rewrite Hw1', !store_handle_lookup in Hw1. congruence. }
  specialize (Hm Hs).
  destruct (run_body _ _ sched w) as [[c1 w1] sched1] eqn:Hb.
  cbn in Hw1, Hm, Hcn. subst w1.
  rewrite (runThread_eq cfg thread function arguments sched w h c1 h1 sched1 Hw Hb)
    in Hrun.
  unfold call_result, runThread_handle, after_call in Hrun.
  destruct c1 as [| e | |]; cbn in Hm.
  - destruct (finish (function arguments)) as [vals | what tb]; cbn in Hrun.
    + injection Hrun as Hc _ _. discriminate Hc.
    + assert (He : status_ (if handler_installed cfg
                            then emplace_back (createStoredObject (LString tb)) h1
                            else h1) ≠ Canceled).
      { destruct (handler_installed cfg); cbn; congruence. }
      rewrite (bool_decide_eq_false_2 _ He) in Hrun. cbn in Hrun.
      injection Hrun as Hc _ _. discriminate Hc.
  - destruct Hm as [-> Hm].
    destruct (catches_foreign cfg); cbn in Hrun.
    + rewrite (bool_decide_eq_true_2 _ Hm) in Hrun. cbn in Hrun.
      injection Hrun as Hc _ _. discriminate Hc.
    + injection Hrun as Hc _ _. discriminate Hc.
  - cbn in Hrun. injection Hrun as <- _.
    specialize (Hcn ltac:(discriminate)).
    assert (Hst : Thread.status_handle h1 = Some [SString "paused"]).
    { unfold Thread.status_handle. rewrite Hm. reflexivity. }
    exists h1.
    split; [apply store_handle_lookup |]. split; [exact Hm |].
    split; [exact L |]. split; [exact R |]. split; [exact Hcn |].
    split.
    { unfold Thread.status. by rewrite store_handle_lookup. }
    intros Hn d period.
    unfold Thread.wait, Thread.get. rewrite store_handle_lookup. cbn.
    unfold waitForCompletion, Notifier.waitFor. rewrite Hcn.
    unfold notified in Hn. cbn in Hn. rewrite Hn. cbn.
    split; [exact Hst | reflexivity].
  - contradiction.
Qed.

Lemma paused_worker_is_observed_witness :
  handles (world_of pause_requested) !! Thread.ctx_ worker0 = Some pause_requested
  ∧ status_ pause_requested = Running
  ∧ Thread.runThread lua51 worker0 ticks_then_42 [] [LElapse 100]
      (world_of pause_requested)
    = (Blocked,
       (Thread.runThread lua51 worker0 ticks_then_42 [] [LElapse 100]
          (world_of pause_requested)).1.2, [])
  ∧ ∃ h', handles (Thread.runThread lua51 worker0 ticks_then_42 [] [LElapse 100]
                     (world_of pause_requested)).1.2 !! Thread.ctx_ worker0
          = Some h'
          ∧ status_ h' = Paused
          ∧ lua_ h' = lua_ pause_requested
          ∧ result_ h' = result_ pause_requested
          ∧ completionNotifier_ h' = completionNotifier_ pause_requested
          ∧ Thread.status worker0
              (Thread.runThread lua51 worker0 ticks_then_42 [] [LElapse 100]
                 (world_of pause_requested)).1.2
            = Some [SString "paused"]
          ∧ (notified CompletionNotifier pause_requested = false →
             ∀ (d : Z) (period : option string),
               Thread.wait millis worker0 (Some d) period
                 (Thread.runThread lua51 worker0 ticks_then_42 []
                    [LElapse 100] (world_of pause_requested)).1.2
               = Some [SString "paused"]
               ∧ Thread.get millis worker0 (Some d) period
                   (Thread.runThread lua51 worker0 ticks_then_42 []
                      [LElapse 100] (world_of pause_requested)).1.2
                 = Some []).
Proof.
  split; [reflexivity |]. split; [reflexivity |].
  split; [vm_compute; reflexivity |].
  apply (paused_worker_is_observed millis lua51 worker0 ticks_then_42 []
           [LElapse 100] (world_of pause_requested) pause_requested _ []);
    [reflexivity | reflexivity | vm_compute; reflexivity].
Defined.

(** ** X8 *)



(** ** X9 *)

(** X9: only the latest command matters to a paused worker.  Whatever
    commands were put and however much time passed while it was not
    scheduled, when it next wakes after a [Run] it leaves the hook with
    status [Running], and after a [Cancel] it unwinds with status
    [Canceled]; the commands before the last one have no effect on that. *)
Theorem paused_worker_sees_latest_command (pre : list Label) (c : Command)
  (rest : list Label) (h : ThreadHandle) :
  status_ h = Paused →
  forallb not_worker pre = true →
  c ≠ Pause →
  ∃ h',
    pauseLoop (pre ++ LPut c :: LWorker :: rest) h
    = (if bool_decide (c = Run) then Normal else Throw LuaHookStopException,
       h', rest)
    ∧ command_ h' = c
    ∧ status_ h' = (if bool_decide (c = Run) then Running else Canceled)
    ∧ result_ h' = result_ h.
Proof.
  intros Hs Hpre Hc. revert h Hs.
  induction pre as [| l pre IH]; intros h Hs.
  - cbn [app pauseLoop]. rewrite waitForCommandChange_no_timeout.
    assert (Hp : putCommand c h = notifyN CommandNotifier
                                    (resetN StatusNotifier (set_command c h))).
    { unfold putCommand. by rewrite Hs. }
    assert (Hn : notified CommandNotifier (putCommand c h) = true)
      by (by rewrite Hp).
    assert (Hcmd : command_ (putCommand c h) = c) by (by rewrite Hp).
    rewrite Hn, Hcmd.
    destruct c; try congruence; repeat (case_bool_decide; try congruence); cbn.
    + eexists. split; [reflexivity |].
      rewrite changeStatus_command, changeStatus_status, changeStatus_result,
        putCommand_result. by rewrite Hcmd.
    + eexists. split; [reflexivity |].
      rewrite changeStatus_command, changeStatus_status, changeStatus_result,
        putCommand_result. by rewrite Hcmd.
  - cbn in Hpre. apply andb_prop in Hpre as [Hl Hpre].
    destruct l as [| c0 | ms]; [discriminate Hl | |]; cbn [app pauseLoop].
    + destruct (IH Hpre (putCommand c0 h)) as (h' & E & C & S & R).
      { by rewrite putCommand_status. }
      exists h'. rewrite E, R, putCommand_result. done.
    + by apply IH.
Qed.

Lemma paused_worker_sees_latest_command_witness :
  status_ (changeStatus Paused pause_requested) = Paused
  ∧ forallb not_worker [LPut Run; LElapse 3; LPut Pause] = true
  ∧ Cancel ≠ Pause
  ∧ ∃ h',
      pauseLoop ([LPut Run; LElapse 3; LPut Pause] ++ LPut Cancel :: LWorker :: [])
        (changeStatus Paused pause_requested)
      = (Throw LuaHookStopException, h', [])
      ∧ command_ h' = Cancel
      ∧ status_ h' = Canceled
      ∧ result_ h' = result_ (changeStatus Paused pause_requested).
Proof.
  split; [reflexivity |]. split; [reflexivity |]. split; [discriminate |].
  apply (paused_worker_sees_latest_command [LPut Run; LElapse 3; LPut Pause]
           Cancel [] (changeStatus Paused pause_requested));
    [reflexivity | reflexivity | discriminate].
Defined.

(** ** X10 *)

Lemma hook_free_run_actions (p : nat) (acts : list Action) :
  Forall (fun a => hook_free a = true →
            ∀ sched w h, handles w !! p = Some h →
              ∃ h', perform p a sched w = (Normal, store_handle p h' w, sched)
                    ∧ status_ h' = status_ h ∧ result_ h' = result_ h) acts →
  forallb hook_free acts = true →
  ∀ sched w h, handles w !! p = Some h →
    ∃ h', run_actions (perform p) acts sched w
          = (Normal, store_handle p h' w, sched)
          ∧ status_ h' = status_ h ∧ result_ h' = result_ h.
Proof.
  induction 1 as [| a acts Ha _ IH]; intros Hfree sched w h Hw.
  - exists h. cbn. by rewrite (store_handle_same p h w Hw).
  - cbn in Hfree. apply andb_prop in Hfree as [Hfa Hfree].
    rewrite run_actions_cons.
    destruct (Ha Hfa sched w h Hw) as (h1 & -> & S1 & R1).
    destruct (IH Hfree sched (store_handle p h1 w) h1 (store_handle_lookup _ _ _))
      as (h2 & -> & S2 & R2).
    exists h2. rewrite store_handle_twice. repeat split; congruence.
Qed.

Lemma hook_free_perform (p : nat) (a : Action) :
  hook_free a = true →
  ∀ sched w h, handles w !! p = Some h →
    ∃ h', perform p a sched w = (Normal, store_handle p h' w, sched)
          ∧ status_ h' = status_ h ∧ result_ h' = result_ h.
Proof.
  induction a as [| | | n inner IH | c] using Action_nested_ind;
    intros Hfree sched w h Hw; try discriminate Hfree.
  - cbn [perform]. unfold ScopedSetInterruptable_ctor. rewrite Hw.
    destruct (hook_free_run_actions p inner IH Hfree sched
                (store_handle p (setNotifier (Some n) h) w)
                (setNotifier (Some n) h) (store_handle_lookup _ _ _))
      as (h2 & -> & S2 & R2).
    rewrite store_handle_twice.
    unfold ScopedSetInterruptable_dtor. rewrite store_handle_lookup.
    exists (setNotifier None h2). rewrite store_handle_twice.
    split; [reflexivity |]. by split.
  - cbn [perform]. rewrite (on_handle_store p _ h w Hw).
    exists (putCommand c h). split; [reflexivity |].
    by rewrite putCommand_status, putCommand_result.
Qed.

(** X10: commands are acted on only at hook ticks, yields and interruption
    points.  A user function that reaches none of them runs to its end
    whatever command is pending or is put meanwhile, a [Cancel] included:
    the status is not changed before the function returns, no label of the
    schedule is consumed, and [runThread] ends with status [Completed] and
    the return values stored. *)
Theorem no_cancel_point_no_cancel (cfg : Interpreter) (thread : Thread.t)
  (function : Function) (arguments : StoredArray) (sched : list Label)
  (w : World) (h : ThreadHandle) (vals : list LuaObject) :
  handles w !! Thread.ctx_ thread = Some h →
  forallb hook_free (body (function arguments)) = true →
  finish (function arguments) = Return vals →
  ∃ h1 w' h',
    run_body (Thread.ctx_ thread) (body (function arguments)) sched w
    = (Normal, store_handle (Thread.ctx_ thread) h1 w, sched)
    ∧ status_ h1 = status_ h
    ∧ Thread.runThread cfg thread function arguments sched w = (Normal, w', sched)
    ∧ handles w' !! Thread.ctx_ thread = Some h'
    ∧ status_ h' = Completed
    ∧ result_ h' = result_ h ++ (stored_result <$> vals).
Proof.
  intros Hw Hfree Hf.
  destruct (hook_free_run_actions (Thread.ctx_ thread) (body (function arguments))
              ltac:(apply Forall_forall; intros a _; apply hook_free_perform)
              Hfree sched w h Hw) as (h1 & Hb & S1 & R1).
  fold (run_body (Thread.ctx_ thread)) in Hb.
  rewrite (runThread_eq cfg thread function arguments sched w h Normal h1 sched
             Hw Hb).
  rewrite Hf. unfold call_result, runThread_handle, after_call. cbn.
  destruct (store_returns_fields vals h1) as (R2 & _).
  exists h1. eexists _, _. split; [exact Hb |]. split; [exact S1 |].
  split; [reflexivity |].
  split; [apply store_handle_lookup |].
  split; [apply changeStatus_status |].
  rewrite changeStatus_result. cbn. by rewrite R2, R1.
Qed.

Lemma no_cancel_point_no_cancel_witness :
  handles (world_of (putCommand Cancel ThreadHandle_new)) !! Thread.ctx_ worker0
  = Some (putCommand Cancel ThreadHandle_new)
  ∧ forallb hook_free [AMeanwhile Pause; AScoped 7%nat [AMeanwhile Cancel]] = true
  ∧ ∃ h1 w' h',
      run_body (Thread.ctx_ worker0)
        [AMeanwhile Pause; AScoped 7%nat [AMeanwhile Cancel]] [LWorker]
        (world_of (putCommand Cancel ThreadHandle_new))
      = (Normal,
         store_handle (Thread.ctx_ worker0) h1
           (world_of (putCommand Cancel ThreadHandle_new)), [LWorker])
      ∧ status_ h1 = status_ (putCommand Cancel ThreadHandle_new)
      ∧ Thread.runThread lua51 worker0
          (fun _ => mkBehaviour
                      [AMeanwhile Pause; AScoped 7%nat [AMeanwhile Cancel]]
                      (Return [LBool true]))
          [] [LWorker] (world_of (putCommand Cancel ThreadHandle_new))
        = (Normal, w', [LWorker])
      ∧ handles w' !! Thread.ctx_ worker0 = Some h'
      ∧ status_ h' = Completed
      ∧ result_ h' = [SBool true].
Proof.
  split; [reflexivity |]. split; [reflexivity |].
  apply (no_cancel_point_no_cancel lua51 worker0
           (fun _ => mkBehaviour
                       [AMeanwhile Pause; AScoped 7%nat [AMeanwhile Cancel]]
                       (Return [LBool true]))
           [] [LWorker] (world_of (putCommand Cancel ThreadHandle_new))
           (putCommand Cancel ThreadHandle_new) [LBool true]); reflexivity.
Defined.

(** ** X11 *)

















(** ** X12 *)

(** X12: on every value a [size_t] can hold, [threadStart] and
    [threadFinish] undo each other and keep the counter in range, the flag
    untouched.  At the ends they wrap: [threadStart] takes [SIZE_MAX] to 0,
    and [threadFinish] takes 0 to [SIZE_MAX], which [effil_shutdown] reads
    as that many active workers. *)
Theorem counter_start_finish_inverse (g : Shutdown.Globals) :
  0 ≤ Shutdown.ACTIVE_THREAD_COUNT g ≤ Shutdown.SIZE_MAX →
  Shutdown.threadFinish (Shutdown.threadStart g) = g
  ∧ Shutdown.threadStart (Shutdown.threadFinish g) = g
  ∧ Shutdown.activeThreads (Shutdown.threadStart g)
    = (if Shutdown.ACTIVE_THREAD_COUNT g =? Shutdown.SIZE_MAX then 0
       else Shutdown.ACTIVE_THREAD_COUNT g + 1)
  ∧ Shutdown.activeThreads (Shutdown.threadFinish g)
    = (if Shutdown.ACTIVE_THREAD_COUNT g =? 0 then Shutdown.SIZE_MAX
       else Shutdown.ACTIVE_THREAD_COUNT g - 1)
  ∧ Shutdown.requested (Shutdown.threadStart g) = Shutdown.requested g
  ∧ Shutdown.requested (Shutdown.threadFinish g) = Shutdown.requested g.
Proof.
  destruct g as [flag n]. cbn [Shutdown.ACTIVE_THREAD_COUNT].
  rewrite SIZE_MAX_value. intros Hn.
  assert (Hstart : (n + 1) mod (18446744073709551615 + 1)
                   = if n =? 18446744073709551615 then 0 else n + 1).
  { destruct (Z.eqb_spec n 18446744073709551615) as [-> | Hne].
    - reflexivity.
    - apply Z.mod_small. lia. }
  assert (Hfinish : (n - 1) mod (18446744073709551615 + 1)
                    = if n =? 0 then 18446744073709551615 else n - 1).
  { destruct (Z.eqb_spec n 0) as [-> | Hne].
    - reflexivity.
    - apply Z.mod_small. lia. }
  unfold Shutdown.threadFinish, Shutdown.threadStart, Shutdown.activeThreads,
    Shutdown.requested.
  cbn [Shutdown.ACTIVE_THREAD_COUNT Shutdown.SHUTDOWN].
  rewrite SIZE_MAX_value, Hstart, Hfinish.
  split; [| split]; [| | done].
  - f_equal. destruct (Z.eqb_spec n 18446744073709551615) as [-> | Hne].
    + reflexivity.
    + replace (n + 1 - 1) with n by lia. apply Z.mod_small. lia.
  - f_equal. destruct (Z.eqb_spec n 0) as [-> | Hne].
    + reflexivity.
    + replace (n - 1 + 1) with n by lia. apply Z.mod_small. lia.
Qed.

Lemma counter_start_finish_inverse_witness :
  0 ≤ Shutdown.ACTIVE_THREAD_COUNT (Shutdown.mkGlobals true 0) ≤ Shutdown.SIZE_MAX
  ∧ Shutdown.threadStart (Shutdown.threadFinish (Shutdown.mkGlobals true 0))
    = Shutdown.mkGlobals true 0
  ∧ Shutdown.activeThreads (Shutdown.threadFinish (Shutdown.mkGlobals true 0))
    = Shutdown.SIZE_MAX.
Proof.
  assert (H : 0 ≤ Shutdown.ACTIVE_THREAD_COUNT (Shutdown.mkGlobals true 0)
              ≤ Shutdown.SIZE_MAX)
    by (split; vm_compute; discriminate).
  split; [exact H |].
  split; apply (counter_start_finish_inverse (Shutdown.mkGlobals true 0) H).
Defined.

(** ** X13 and X14 *)

(** X13: when [effil_shutdown] returns, it returns at the first load of the
    counter that is not positive.  The process is then exactly what the
    workers made of it since the flag was stored: [effil_shutdown] itself
    writes nothing but the flag.  Before that load it has, for each earlier
    poll, loaded the (positive) count of that moment and slept 10 ms. *)
Theorem effil_shutdown_returns_at_first_zero
  (sched : list (list Shutdown.WorkerEvent)) (s s' : Shutdown.Process)
  (ops : list Shutdown.Op) :
  Shutdown.effil_shutdown sched s = Some (s', ops) →
  ∃ k : nat,
    (k < length sched)%nat
    ∧ s' = Shutdown.worker_events (concat (take (S k) sched)) (flag_stored s)
    ∧ count_at sched s k ≤ 0
    ∧ (∀ j : nat, (j < k)%nat → 0 < count_at sched s j)
    ∧ ops
      = Shutdown.OpStoreFlag
        :: flat_map
             (fun j => [Shutdown.OpLoadCount (count_at sched s j);
                        Shutdown.OpSleep 10])
             (seq 0 k)
        ++ [Shutdown.OpLoadCount (count_at sched s k)].
Proof.
  unfold Shutdown.effil_shutdown. fold (flag_stored s). intros He.
  pose proof (poll_characterised sched (flag_stored s)) as Hp.
  destruct (Shutdown.poll sched (flag_stored s)) as [[s2 ops2] |];
    [| discriminate He].
  cbn in He. injection He as <- <-.
  destruct Hp as (k & Hk & -> & Hle & Hbefore & ->).
  exists k. unfold count_at. repeat split; done.
Qed.

Lemma effil_shutdown_returns_at_first_zero_witness :
  Shutdown.effil_shutdown leaves_during_sleep one_worker
  = Some (Shutdown.mkProcess (Shutdown.mkGlobals true 0) ∅,
          [Shutdown.OpStoreFlag; Shutdown.OpLoadCount 1; Shutdown.OpSleep 10;
           Shutdown.OpLoadCount 0])
  ∧ ∃ k : nat,
      (k < length leaves_during_sleep)%nat
      ∧ Shutdown.mkProcess (Shutdown.mkGlobals true 0) ∅
        = Shutdown.worker_events (concat (take (S k) leaves_during_sleep))
            (flag_stored one_worker)
      ∧ count_at leaves_during_sleep one_worker k ≤ 0
      ∧ (∀ j : nat, (j < k)%nat → 0 < count_at leaves_during_sleep one_worker j)
      ∧ [Shutdown.OpStoreFlag; Shutdown.OpLoadCount 1; Shutdown.OpSleep 10;
         Shutdown.OpLoadCount 0]
        = Shutdown.OpStoreFlag
          :: flat_map
               (fun j => [Shutdown.OpLoadCount
                            (count_at leaves_during_sleep one_worker j);
                          Shutdown.OpSleep 10])
               (seq 0 k)
          ++ [Shutdown.OpLoadCount (count_at leaves_during_sleep one_worker k)].
Proof.
  split; [vm_compute; reflexivity |].
  apply (effil_shutdown_returns_at_first_zero leaves_during_sleep one_worker).
  vm_compute. reflexivity.
Defined.

(** X14: [effil_shutdown] is still polling at the end of a schedule exactly
    when every load of the counter in it found a positive count; in
    particular it returns as soon as one load finds zero, and a counter
    that stays positive (a [threadStart] without its [threadFinish]) keeps
    it from returning. *)
Theorem effil_shutdown_polls_while_positive
  (sched : list (list Shutdown.WorkerEvent)) (s : Shutdown.Process) :
  Shutdown.effil_shutdown sched s = None
  ↔ ∀ j : nat, (j < length sched)%nat → 0 < count_at sched s j.
Proof.
  unfold Shutdown.effil_shutdown. fold (flag_stored s).
  pose proof (poll_characterised sched (flag_stored s)) as Hp.
  destruct (Shutdown.poll sched (flag_stored s)) as [[s2 ops2] |]; cbn.
  - destruct Hp as (k & Hk & -> & Hle & _).
    split; [discriminate |]. intros Hall.
    specialize (Hall k Hk). unfold count_at in Hall. lia.
  - split; [intros _; exact Hp | reflexivity].
Qed.

(** ** X15 *)

(** X15: the registering call of [register_cookie] succeeds on any Lua
    state, whatever is on its stack, and disturbs nothing that was there:
    the stack is as before, every object that existed is unchanged, and
    every registry entry under another key is unchanged.  The cookie is a
    userdata that did not exist before. *)
Theorem register_cookie_disturbs_nothing (L : Lua.State) :
  ∃ (L' : Lua.State) (a : nat),
    Shutdown.register_cookie false L = (true, Some L')
    ∧ Lua.stack L' = Lua.stack L
    ∧ Lua.registry L' !! "effil_shutdown_cookie" = Some (Lua.VUserdata a)
    ∧ Lua.objects L !! a = None
    ∧ (∀ k, k ≠ "effil_shutdown_cookie" →
         Lua.registry L' !! k = Lua.registry L !! k)
    ∧ (∀ b o, Lua.objects L !! b = Some o → Lua.objects L' !! b = Some o).
Proof.
  destruct (register_cookie_first L)
    as (L' & a & m & E & Ha & Hm & Ham & Hst & Hreg & Hoa & Hom & Hold).
  exists L', a. split; [exact E |]. split; [exact Hst |].
  rewrite Hreg.
  split; [apply lookup_insert_eq |].
  split; [by apply not_elem_of_dom |].
  split.
  - intros k Hk. by rewrite lookup_insert_ne.
  - intros b o Hb. rewrite Hold; [exact Hb |].
    apply elem_of_dom. by eexists.
Qed.

(** ** X16 *)

(** X16: on a worker that has finished (terminal status, status notifier
    latched by the last [changeStatus]) [pause] returns [false] at once,
    for any duration, and [resume] does nothing; neither changes the
    store, so a finished worker is never shown as paused or running
    again. *)
Theorem pause_and_resume_on_finished_worker
  (fromLuaTime : Z → option string → Z) (thread : Thread.t)
  (duration : option Z) (period : option string) (w : World)
  (h : ThreadHandle) :
  handles w !! Thread.ctx_ thread = Some h →
  isFinishStatus (status_ h) = true →
  notified StatusNotifier h = true →
  Thread.pause fromLuaTime thread duration period w = (Some false, w)
  ∧ Thread.resume thread w = w
  ∧ Thread.status thread (Thread.resume thread w) = Thread.status thread w.
Proof.
  intros Hw Hf Hl.
  assert (Hput : ∀ c, on_handle (Thread.ctx_ thread) (putCommand c) w = w).
  { intros c. rewrite (on_handle_store _ _ h w Hw), (putCommand_terminal _ _ Hf).
    by apply store_handle_same. }
  unfold Thread.pause, Thread.resume. rewrite !Hput, Hw. cbn.
  unfold waitForStatusChange, Notifier.waitFor.
  unfold notified in Hl. cbn in Hl. rewrite Hl. cbn.
  split; [| done].
  do 2 f_equal. apply bool_decide_eq_false_2.
  intros Hp. rewrite Hp in Hf. discriminate Hf.
Qed.

Lemma pause_and_resume_on_finished_worker_witness :
  handles (Thread.runThread lua53 worker0 raises_boom [] []
             (world_of ThreadHandle_new)).1.2 !! Thread.ctx_ worker0
  = Some (changeStatus Failed
            (set_result [SString "failed"; SString "boom"; SString boom_traceback]
               (destroyLua
                  (emplace_back (SString boom_traceback) ThreadHandle_new))))
  ∧ Thread.pause millis worker0 None None
      (Thread.runThread lua53 worker0 raises_boom [] []
         (world_of ThreadHandle_new)).1.2
    = (Some false,
       (Thread.runThread lua53 worker0 raises_boom [] []
          (world_of ThreadHandle_new)).1.2).
Proof.
  split; [vm_compute; reflexivity |].
  apply (pause_and_resume_on_finished_worker millis worker0 None None
           (Thread.runThread lua53 worker0 raises_boom [] []
              (world_of ThreadHandle_new)).1.2
           (changeStatus Failed
              (set_result
                 [SString "failed"; SString "boom"; SString boom_traceback]
                 (destroyLua
                    (emplace_back (SString boom_traceback) ThreadHandle_new)))));
    vm_compute; reflexivity.
Defined.
